(** * vaccinate: dependency injection by [require] and positional arguments

    A shallow embedding of the two versions of [vaccinate] in the
    repository, [src/lib/index.js] and [src/unnamed/part_000], and the
    properties of its resolution algorithm.

    The JavaScript fragment the two files use is modelled as follows.
    - Values are the primitives, arrays (dense, by value), references to
      plain objects and to function objects, and the [TypeError] the
      runtime raises itself.  Numbers are integers: only their truthiness
      is observed.
    - The heap maps a location to the own properties of the object or
      function living there; reading a missing property gives [undefined].
      Prototypes and accessors are not modelled.
    - The host's [require], and every function that is not defined in
      the two files (targets, custom loaders), are parameters: arbitrary
      terminating transformers of the whole world that return or throw.
    - A thrown value is any value, as in JavaScript.
    - The recursion vaccinate -> loader -> vaccinate is bounded by fuel;
      a computation that runs out of fuel has no result. *)

From stdpp Require Import gmap strings pretty list fin_maps.
From Stdlib Require Import ZArith.

Set Warnings "-register-all".

(** ** Values *)

Definition loc := positive.

Inductive value : Type :=
| VUndef
| VNull
| VBool (b : bool)
| VNum (n : Z)
| VStr (s : string)
| VArr (items : list value)
| VObj (l : loc)
| VFun (l : loc)
| VTypeError.

#[global] Instance value_inhabited : Inhabited value := populate VUndef.

(** ToBoolean: what [if (x)], [x && y] and [x || y] test. *)
Definition truthy (v : value) : bool :=
  match v with
  | VUndef | VNull => false
  | VBool b => b
  | VNum n => negb (n =? 0)%Z
  | VStr s => negb (String.eqb s "")
  | VArr _ | VObj _ | VFun _ | VTypeError => true
  end.

(** [typeof v === 'string'], [typeof v === 'function'], [Array.isArray(v)]. *)
Definition is_string (v : value) : bool :=
  match v with VStr _ => true | _ => false end.

Definition is_function (v : value) : bool :=
  match v with VFun _ => true | _ => false end.

Definition is_array (v : value) : bool :=
  match v with VArr _ => true | _ => false end.

(** [_.startsWith(module, './')]. *)
Definition starts_with (s p : string) : bool := String.prefix p s.

(** Outcome of a call: a returned value or a thrown one. *)
Inductive res (A : Type) : Type :=
| Ret (a : A)
| Throw (e : value).
Arguments Ret {A} a.
Arguments Throw {A} e.

(** What a run does that can be observed from outside: calls of the host's
    [require], calls of [options.require] (with everything that happened
    inside the call), and applications of a function to a receiver and
    arguments. *)
Inductive event : Type :=
| EvRequire (path : string) (r : res value)
| EvLoad (reference : value) (inner : list event) (r : res value)
| EvApply (func : loc) (this : value) (args : list value) (r : res value).

(** The two versions of the program. *)
Inductive version : Type := LibIndex | Part000.

(** Where the function [vaccinate] and the arrow function stored under
    [vaccinate.defaults.require] live. *)
Definition vaccinate_loc : loc := 1%positive.
Definition require_loc : loc := 2%positive.

Section Vaccinate.

(** ** The world *)

(** State of the host outside the heap: module cache, file system... *)
Context {E : Type}.

Record world : Type := World {
  heap : gmap loc (gmap string value);
  ext : E
}.

(** [obj[key]] for an object or function at [l]. *)
Definition get_prop (l : loc) (key : string) (w : world) : value :=
  default VUndef (heap w !! l ≫= λ props, props !! key).

Definition props_of (l : loc) (w : world) : gmap string value :=
  default ∅ (heap w !! l).

Definition set_props (l : loc) (props : gmap string value) (w : world) : world :=
  World (<[l := props]> (heap w)) (ext w).

(** The host's [require(path)]: runs the module's code on first load. *)
Variable host_require : string → world → world * res value.

(** [f.apply(this, args)] for a function the two files do not define. *)
Variable call : loc → value → list value → world → world * res value.

(** ToString, as [+] with a string and property access apply it: the
    identity on a string, the source text on a function, and so on. *)
Variable to_string : value → string.

(** ** Computations *)

(** A computation runs in a world and gives, unless fuel runs out or the
    model does not cover the behaviour, the events, the new world and the
    outcome. *)
Definition M (A : Type) : Type := world → option (list event * world * res A).

Definition ret {A} (a : A) : M A := λ w, Some ([], w, Ret a).

Definition throw {A} (e : value) : M A := λ w, Some ([], w, Throw e).

Definition bind {A B} (m : M A) (k : A → M B) : M B := λ w,
  match m w with
  | None => None
  | Some (t1, w1, Throw e) => Some (t1, w1, Throw e)
  | Some (t1, w1, Ret a) =>
      match k a w1 with
      | None => None
      | Some (t2, w2, r) => Some (t1 ++ t2, w2, r)
      end
  end.

Notation "x <- m ;; k" := (bind m (λ x, k))
  (at level 100, m at next level, right associativity).
Notation "m ;;; k" := (bind m (λ _, k))
  (at level 100, right associativity).

Definition read {A} (f : world → A) : M A := λ w, Some ([], w, Ret (f w)).

Definition modify (f : world → world) : M unit := λ w, Some ([], f w, Ret tt).

Definition out_of_fuel {A} : M A := λ _, None.

Definition unmodelled {A} : M A := λ _, None.

(** [try { ... } catch (_ex) { ... }]: the outcome as a value. *)
Definition attempt {A} (m : M A) : M (res A) := λ w,
  match m w with
  | None => None
  | Some (t, w', r) => Some (t, w', Ret r)
  end.

Definition host (path : string) : M value := λ w,
  let '(w', r) := host_require path w in Some ([EvRequire path r], w', r).

Definition apply (func : loc) (this : value) (args : list value) : M value := λ w,
  let '(w', r) := call func this args w in Some ([EvApply func this args r], w', r).

(** One call of [options.require]: its events are nested in one event. *)
Definition loading (reference : value) (m : M value) : M value := λ w,
  match m w with
  | None => None
  | Some (t, w', r) => Some ([EvLoad reference t r], w', r)
  end.

(** [{}]: a fresh empty object. *)
Definition alloc_object : M loc := λ w,
  let l := fresh (dom (heap w)) in
  Some ([], set_props l ∅ w, Ret l).

(** [array.map(f)] on a dense array. *)
Fixpoint map_array {A B} (f : A → M B) (items : list A) : M (list B) :=
  match items with
  | [] => ret []
  | x :: rest =>
      y <- f x;;
      ys <- map_array f rest;;
      ret (y :: ys)
  end.

(** ** lodash *)

(** One property of [_.defaults(object, source)]: the destination's value
    stays unless it resolves to [undefined]. *)
Definition defaults_prop (dst src : option value) : option value :=
  match dst with
  | Some VUndef | None => match src with Some v => Some v | None => dst end
  | Some v => Some v
  end.

(** [_.defaults(object, source)]: assigns the source's properties to the
    destination wherever the destination's resolve to [undefined]; mutates
    the destination. A source that is [undefined], [null], a boolean or a
    number has no properties to assign. *)
Definition lodash_defaults (object : loc) (source : value) : M unit :=
  match source with
  | VObj s | VFun s =>
      modify (λ w, set_props object (merge defaults_prop (props_of object w) (props_of s w)) w)
  | VStr _ | VArr _ => unmodelled
  | _ => ret tt
  end.

(** [func[options.dependenciesProperty]]. *)
Definition declaration_of (func options : loc) (w : world) : value :=
  get_prop func (to_string (get_prop options "dependenciesProperty" w)) w.

(** ** The default loader, [vaccinate.defaults.require] *)

(** The path required for a relative name under a base directory:
    [moduleDir + '/' + module]. *)
Definition candidate (module : string) (moduleDir : value) : string :=
  to_string moduleDir +:+ "/" +:+ module.

(** [src/lib/index.js], lines 32-33. *)
Definition load_lib (module : string) (options : loc) : M value :=
  moduleDir <- read (get_prop options "moduleDir");;
  let module :=
    if truthy moduleDir && starts_with module "./"
    then candidate module moduleDir
    else module in
  host module.

(** [src/unnamed/part_000], lines 36-45: the callback of [moduleDirs.some],
    iterated; [dependency] and [ex] are the two variables it assigns. *)
Fixpoint some_moduleDirs (module : string) (moduleDirs : list value)
    (dependency ex : value) : M (value * value) :=
  match moduleDirs with
  | [] => ret (dependency, ex)
  | moduleDir :: rest =>
      r <- attempt (host (candidate module moduleDir));;
      match r with
      | Ret v => ret (v, VNull)
      | Throw _ex => some_moduleDirs module rest dependency _ex
      end
  end.

(** [x.method(...)] where [x] is not an array: a [TypeError] unless [x] is
    an object that has a function under that name, which is not modelled. *)
Definition no_array_method {A} (x : value) (method : string) : M A :=
  match x with
  | VObj l | VFun l =>
      m <- read (get_prop l method);;
      if is_function m then unmodelled else throw VTypeError
  | _ => throw VTypeError
  end.

(** [src/unnamed/part_000], lines 32-50. *)
Definition load_part000 (module : string) (options : loc) : M value :=
  moduleDir <- read (get_prop options "moduleDir");;
  if truthy moduleDir && starts_with module "./" then
    let moduleDirs := if is_string moduleDir then VArr [moduleDir] else moduleDir in
    match moduleDirs with
    | VArr dirs =>
        found <- some_moduleDirs module dirs VUndef VUndef;;
        let '(dependency, ex) := found in
        if truthy ex then throw ex else ret dependency
    | _ => no_array_method moduleDirs "some"
    end
  else host module.

Definition load (ver : version) : string → loc → M value :=
  match ver with
  | LibIndex => load_lib
  | Part000 => load_part000
  end.

(** The arrow function under [vaccinate.defaults.require]; [vaccinate] is
    the function of the same file, here with less fuel. *)
Definition default_require (ver : version)
    (vaccinate : loc → option loc → value → M value)
    (module : value) (options : loc) : M value :=
  match module with
  | VStr name =>
      dependency <- load ver name options;;
      match dependency with
      | VFun f =>
          declaration <- read (declaration_of f options);;
          if is_array declaration
          then vaccinate f (Some options) VUndef
          else ret dependency
      | _ => ret dependency
      end
  | _ => ret module
  end.

(** ** vaccinate *)

(** Lines 19-20 of both files: [options = options || {}] and
    [_.defaults(options, vaccinate.defaults)]. *)
Definition prepare_options (options : option loc) : M loc :=
  o <- match options with
       | Some o => ret o
       | None => alloc_object
       end;;
  defaults <- read (get_prop vaccinate_loc "defaults");;
  lodash_defaults o defaults;;;
  ret o.

(** The callback of [map], line 22: [options.require(module, options)]. *)
Definition call_require (ver : version)
    (vaccinate : loc → option loc → value → M value)
    (options : loc) (module : value) : M value :=
  require <- read (get_prop options "require");;
  match require with
  | VFun l =>
      loading module
        (if decide (l = require_loc)
         then default_require ver vaccinate module options
         else apply l (VObj options) [module; VObj options])
  | _ => throw VTypeError
  end.

(** The first argument of [func.apply], line 24: [context || null] in
    [src/lib/index.js], [null] in [src/unnamed/part_000], which has no
    [context] parameter. *)
Definition receiver (ver : version) (context : value) : value :=
  match ver with
  | LibIndex => if truthy context then context else VNull
  | Part000 => VNull
  end.

(** Line 22: [func[options.dependenciesProperty].map(...)]. *)
Definition map_declaration (ver : version)
    (vaccinate : loc → option loc → value → M value)
    (options : loc) (declaration : value) : M (list value) :=
  match declaration with
  | VArr items => map_array (call_require ver vaccinate options) items
  | _ => no_array_method declaration "map"
  end.

Definition vaccinate_body (ver : version)
    (vaccinate : loc → option loc → value → M value)
    (func : loc) (options : option loc) (context : value) : M value :=
  options <- prepare_options options;;
  declaration <- read (declaration_of func options);;
  args <- map_declaration ver vaccinate options declaration;;
  apply func (receiver ver context) args.

Fixpoint vaccinate (ver : version) (fuel : nat)
    (func : loc) (options : option loc) (context : value) : M value :=
  match fuel with
  | O => out_of_fuel
  | S fuel => vaccinate_body ver (vaccinate ver fuel) func options context
  end.

(** ** Reading a trace *)

(** [fail_all module dirs w t w']: from [w], the host's [require] throws
    for the candidate of every directory of [dirs], tried in order; [t] are
    the events of these attempts and [w'] the world after them. *)
Inductive fail_all (module : string) : list value → world → list event → world → Prop :=
| fail_all_nil w : fail_all module [] w [] w
| fail_all_cons d dirs w w1 e t w2 :
    host_require (candidate module d) w = (w1, Throw e) →
    fail_all module dirs w1 t w2 →
    fail_all module (d :: dirs) w (EvRequire (candidate module d) (Throw e) :: t) w2.

(** The calls of [options.require] made by the run itself, with their
    outcomes, and the applications it made itself. *)
Definition loads (t : list event) : list (value * res value) :=
  omap (λ ev, match ev with EvLoad reference _ r => Some (reference, r) | _ => None end) t.

Definition applications (t : list event) : list (loc * value * list value) :=
  omap (λ ev, match ev with EvApply f this args _ => Some (f, this, args) | _ => None end) t.

Definition requires (t : list event) : list string :=
  omap (λ ev, match ev with EvRequire path _ => Some path | _ => None end) t.

(** ** Equations of the computations *)

Lemma bind_read {A B} (f : world → A) (k : A → M B) w :
  bind (read f) k w = k (f w) w.
Proof. unfold bind, read. by destruct (k (f w) w) as [[[??]?]|]. Qed.

Lemma bind_Ret {A B} (m : M A) (k : A → M B) w t1 w1 a :
  m w = Some (t1, w1, Ret a) →
  bind m k w =
    match k a w1 with
    | None => None
    | Some (t2, w2, r) => Some ((t1 ++ t2)%list, w2, r)
    end.
Proof. unfold bind. by intros ->. Qed.

Lemma bind_Throw {A B} (m : M A) (k : A → M B) w t1 w1 e :
  m w = Some (t1, w1, Throw e) → bind m k w = Some (t1, w1, Throw e).
Proof. unfold bind. by intros ->. Qed.

(** What a [bind] that has a result is made of. *)
Lemma bind_Some {A B} (m : M A) (k : A → M B) w t w' r :
  bind m k w = Some (t, w', r) →
  (∃ e, m w = Some (t, w', Throw e) ∧ r = Throw e) ∨
  (∃ t1 w1 a t2, m w = Some (t1, w1, Ret a) ∧ k a w1 = Some (t2, w', r) ∧ t = (t1 ++ t2)%list).
Proof.
  unfold bind. destruct (m w) as [[[t1 w1] [a|e]]|]; [| |done].
  - destruct (k a w1) as [[[t2 w2] r2]|] eqn:Hk; [|done].
    intros [= <- <- <-]. right. by exists t1, w1, a, t2.
  - intros [= <- <- <-]. left. by exists e.
Qed.

Lemma loads_app t1 t2 : loads (t1 ++ t2) = loads t1 ++ loads t2.
Proof. apply omap_app. Qed.

Lemma applications_app t1 t2 : applications (t1 ++ t2) = applications t1 ++ applications t2.
Proof. apply omap_app. Qed.

Lemma requires_app t1 t2 : requires (t1 ++ t2) = requires t1 ++ requires t2.
Proof. apply omap_app. Qed.

(** Lines 19-20 make no call: no event, no failure. *)
Lemma prepare_options_Some options w t w1 r :
  prepare_options options w = Some (t, w1, r) → t = [] ∧ ∃ o, r = Ret o.
Proof.
  unfold prepare_options. intros H.
  apply bind_Some in H as [(e & H & _)|(t1 & w2 & o & t2 & Ho & H & ->)].
  { destruct options; discriminate. }
  assert (t1 = []) as -> by (destruct options; unfold ret, alloc_object in Ho; by simplify_eq).
  rewrite bind_read in H.
  apply bind_Some in H as [(e & H & _)|(t1 & w3 & [] & t3 & Hd & H & ->)].
  { destruct (get_prop vaccinate_loc "defaults" w2); discriminate. }
  assert (t1 = []) as ->.
  { destruct (get_prop vaccinate_loc "defaults" w2);
      unfold lodash_defaults, ret, modify, unmodelled in Hd; by simplify_eq. }
  unfold ret in H. simplify_eq. eauto.
Qed.

(** A call of [options.require] leaves one [EvLoad] event, or none when
    [options.require] is not a function. *)
Lemma call_require_Some ver rec o module w t w' r :
  call_require ver rec o module w = Some (t, w', r) →
  (∃ inner, t = [EvLoad module inner r]) ∨
  (t = [] ∧ w' = w ∧ r = Throw VTypeError ∧ is_function (get_prop o "require" w) = false).
Proof.
  unfold call_require. rewrite bind_read.
  destruct (get_prop o "require" w) eqn:Hreq;
    try (unfold throw; intros [= <- <- <-]; by right).
  unfold loading.
  match goal with |- context [match ?m w with _ => _ end] => destruct (m w) as [[[ti wi] ri]|] end;
    [|done].
  intros [= <- <- <-]. left. by exists ti.
Qed.

(** The calls of [options.require] that [map] makes when all of them
    return: one per item, in order, and no application of its own. *)
Lemma map_array_call_require ver rec o items : ∀ w t w' args,
  map_array (call_require ver rec o) items w = Some (t, w', Ret args) →
  loads t = zip items (Ret <$> args) ∧ applications t = [] ∧
  requires t = [] ∧ length args = length items.
Proof.
  induction items as [|x items IH]; simpl; intros w t w' args H.
  - unfold ret in H. by simplify_eq.
  - apply bind_Some in H as [(e & _ & ?)|(t1 & w1 & y & t2 & Hx & H & ->)]; [done|].
    apply bind_Some in H as [(e & _ & ?)|(t3 & w3 & ys & t4 & Hrest & H & ->)]; [done|].
    unfold ret in H. simplify_eq.
    apply IH in Hrest as (Hl & Ha & Hr & Hlen).
    apply call_require_Some in Hx as [[inner ->]|(_ & _ & ? & _)]; [|done].
    rewrite app_nil_r, loads_app, applications_app, requires_app, Hl, Ha, Hr.
    simpl. by rewrite Hlen.
Qed.

(** One step of fuel: the body of [vaccinate] after lines 19-20 and the
    read of the declaration. *)
Lemma vaccinate_S ver n func options context w w1 o :
  prepare_options options w = Some ([], w1, Ret o) →
  vaccinate ver (S n) func options context w =
    bind (map_declaration ver (vaccinate ver n) o (declaration_of func o w1))
         (λ args, apply func (receiver ver context) args) w1.
Proof.
  intros Hprep. simpl. unfold vaccinate_body.
  rewrite (bind_Ret _ _ _ _ _ _ Hprep), bind_read.
  by destruct (bind _ _ w1) as [[[??]?]|].
Qed.

Lemma apply_eq func this args w :
  apply func this args w =
    Some ([EvApply func this args (call func this args w).2],
          (call func this args w).1, (call func this args w).2).
Proof. unfold apply. by destruct (call func this args w). Qed.

(** The run of [vaccinate] when every call of [options.require] returns. *)
Lemma vaccinate_resolved ver n func options context w w1 o items t w2 args :
  prepare_options options w = Some ([], w1, Ret o) →
  declaration_of func o w1 = VArr items →
  map_array (call_require ver (vaccinate ver n) o) items w1 = Some (t, w2, Ret args) →
  vaccinate ver (S n) func options context w =
    Some (t ++ [EvApply func (receiver ver context) args
                  (call func (receiver ver context) args w2).2],
          (call func (receiver ver context) args w2).1,
          (call func (receiver ver context) args w2).2).
Proof.
  intros Hprep Hdecl Hmap.
  rewrite (vaccinate_S _ _ _ _ _ _ _ _ Hprep), Hdecl.
  by rewrite (bind_Ret _ _ _ _ _ _ Hmap), apply_eq.
Qed.

(** ** The claims on [vaccinate] itself *)



(** C8. When the target has nothing under the dependencies property
    ([func[options.dependenciesProperty]] is [undefined]), [vaccinate]
    throws a [TypeError] without any event: no loader call and no
    application of the target. *)
Theorem vaccinate_missing_declaration ver n func options context w w1 o :
  prepare_options options w = Some ([], w1, Ret o) →
  declaration_of func o w1 = VUndef →
  vaccinate ver (S n) func options context w = Some ([], w1, Throw VTypeError).
Proof.
  intros Hprep Hdecl.
  by rewrite (vaccinate_S _ _ _ _ _ _ _ _ Hprep), Hdecl.
Qed.

(** The same for every declaration that is not an array, unless it is an
    object with a function under [map]: [null], a string, a number, a plain
    object. *)
Lemma vaccinate_declaration_not_array ver n func options context w w1 o :
  prepare_options options w = Some ([], w1, Ret o) →
  is_array (declaration_of func o w1) = false →
  match declaration_of func o w1 with
  | VObj l | VFun l => is_function (get_prop l "map" w1) = false
  | _ => True
  end →
  vaccinate ver (S n) func options context w = Some ([], w1, Throw VTypeError).
Proof.
  intros Hprep Harr Hmap.
  rewrite (vaccinate_S _ _ _ _ _ _ _ _ Hprep).
  destruct (declaration_of func o w1); try done;
    simpl; unfold bind at 1; rewrite bind_read, Hmap; done.
Qed.

(** ** More fuel *)

(** [m2] has every result of [m1]. *)
Definition extends {A} (m1 m2 : M A) : Prop :=
  ∀ w r, m1 w = Some r → m2 w = Some r.

Lemma extends_refl {A} (m : M A) : extends m m.
Proof. by intros w r. Qed.

Lemma extends_bind {A B} (m1 m2 : M A) (k1 k2 : A → M B) :
  extends m1 m2 → (∀ a, extends (k1 a) (k2 a)) → extends (bind m1 k1) (bind m2 k2).
Proof.
  intros Hm Hk w [[t w'] r] H.
  apply bind_Some in H as [(e & H & ->)|(t1 & w1 & a & t2 & H & H2 & ->)].
  - by rewrite (bind_Throw _ _ _ _ _ _ (Hm _ _ H)).
  - by rewrite (bind_Ret _ _ _ _ _ _ (Hm _ _ H)), (Hk _ _ _ H2).
Qed.

Lemma extends_loading reference m1 m2 :
  extends m1 m2 → extends (loading reference m1) (loading reference m2).
Proof.
  intros Hm w r. unfold loading.
  destruct (m1 w) as [[[t1 w1] r1]|] eqn:H1; [|done]. by rewrite (Hm _ _ H1).
Qed.

Lemma extends_map_array {A B} (f1 f2 : A → M B) items :
  (∀ x, extends (f1 x) (f2 x)) → extends (map_array f1 items) (map_array f2 items).
Proof.
  intros Hf. induction items as [|x items IH]; simpl; [apply extends_refl|].
  apply extends_bind; [apply Hf|]. intros y.
  apply extends_bind; [apply IH|]. intros ys. apply extends_refl.
Qed.

Lemma extends_vaccinate_S ver n :
  ∀ func options context,
    extends (vaccinate ver n func options context) (vaccinate ver (S n) func options context).
Proof.
  induction n as [|n IH]; intros func options context; [by intros w r|].
  change (extends (vaccinate_body ver (vaccinate ver n) func options context)
                  (vaccinate_body ver (vaccinate ver (S n)) func options context)).
  unfold vaccinate_body.
  apply extends_bind; [apply extends_refl|]. intros o.
  apply extends_bind; [apply extends_refl|]. intros declaration.
  apply extends_bind; [|intros; apply extends_refl].
  unfold map_declaration. destruct declaration; try apply extends_refl.
  apply extends_map_array. intros module. unfold call_require.
  apply extends_bind; [apply extends_refl|]. intros require.
  destruct require; try apply extends_refl.
  apply extends_loading. case_decide; [|apply extends_refl].
  unfold default_require. destruct module; try apply extends_refl.
  apply extends_bind; [apply extends_refl|]. intros dependency.
  destruct dependency; try apply extends_refl.
  apply extends_bind; [apply extends_refl|]. intros d.
  destruct (is_array d); [apply IH|apply extends_refl].
Qed.

(** A result obtained with some fuel is the result with any more fuel. *)
Lemma vaccinate_fuel_mono ver n m func options context w r :
  n ≤ m →
  vaccinate ver n func options context w = Some r →
  vaccinate ver m func options context w = Some r.
Proof.
  induction 1 as [|m _ IH]; [done|].
  intros H. by apply extends_vaccinate_S, IH.
Qed.

(** ** The search through the base directories *)

Lemma host_eq path w :
  host path w = Some ([EvRequire path (host_require path w).2],
                      (host_require path w).1, (host_require path w).2).
Proof. unfold host. by destruct (host_require path w). Qed.

Lemma some_moduleDirs_cons module d rest dependency ex w :
  some_moduleDirs module (d :: rest) dependency ex w =
    match host_require (candidate module d) w with
    | (w1, Ret v) => Some ([EvRequire (candidate module d) (Ret v)], w1, Ret (v, VNull))
    | (w1, Throw e) =>
        match some_moduleDirs module rest dependency e w1 with
        | None => None
        | Some (t, w2, r) => Some (EvRequire (candidate module d) (Throw e) :: t, w2, r)
        end
    end.
Proof.
  simpl. unfold bind, attempt. rewrite host_eq.
  destruct (host_require (candidate module d) w) as [w1 [v|e]]; simpl; [done|].
  by destruct (some_moduleDirs module rest dependency e w1) as [[[??]?]|].
Qed.

Lemma fail_all_requires module dirs w t w' :
  fail_all module dirs w t w' → requires t = candidate module <$> dirs.
Proof. induction 1; simpl; [done|]. by f_equal. Qed.

(** The search stops at the first directory whose candidate loads. *)
Lemma some_moduleDirs_found module pre d post w t w1 w2 v :
  fail_all module pre w t w1 →
  host_require (candidate module d) w1 = (w2, Ret v) →
  ∀ dependency ex,
    some_moduleDirs module (pre ++ d :: post) dependency ex w =
      Some (t ++ [EvRequire (candidate module d) (Ret v)], w2, Ret (v, VNull)).
Proof.
  intros Hfail Hd. induction Hfail as [w|d' dirs w w1 e t w3 Hd' _ IH];
    intros dependency ex.
  - simpl app. by rewrite some_moduleDirs_cons, Hd.
  - rewrite <-app_comm_cons, some_moduleDirs_cons, Hd'. by rewrite IH.
Qed.

(** When every directory fails, [ex] ends as the last failure and
    [dependency] is left as it was. *)
Lemma some_moduleDirs_all_fail module pre d w t w1 w2 e :
  fail_all module pre w t w1 →
  host_require (candidate module d) w1 = (w2, Throw e) →
  ∀ dependency ex,
    some_moduleDirs module (pre ++ [d]) dependency ex w =
      Some (t ++ [EvRequire (candidate module d) (Throw e)], w2, Ret (dependency, e)).
Proof.
  intros Hfail Hd. induction Hfail as [w|d' dirs w w1 e' t w3 Hd' _ IH];
    intros dependency ex.
  - simpl app. by rewrite some_moduleDirs_cons, Hd.
  - rewrite <-app_comm_cons, some_moduleDirs_cons, Hd'. by rewrite IH.
Qed.

(** The loader of [src/unnamed/part_000] on a relative name and a list of
    base directories. *)
Lemma load_part000_dirs name o w dirs :
  get_prop o "moduleDir" w = VArr dirs →
  starts_with name "./" = true →
  load_part000 name o w =
    bind (some_moduleDirs name dirs VUndef VUndef)
         (λ found, if truthy found.2 then throw found.2 else ret found.1) w.
Proof.
  intros Hmd Hrel. unfold load_part000. rewrite bind_read, Hmd, Hrel. simpl.
  unfold bind. destruct (some_moduleDirs name dirs VUndef VUndef w) as [[[t w1] [[dep ex]|e]]|];
    done.
Qed.

(** When every base directory fails and the last failure is a truthy
    value, as every object is, that failure is thrown. *)
Lemma load_part000_throws_last name o w pre d t w1 w2 e :
  get_prop o "moduleDir" w = VArr (pre ++ [d]) →
  starts_with name "./" = true →
  fail_all name pre w t w1 →
  host_require (candidate name d) w1 = (w2, Throw e) →
  truthy e = true →
  load_part000 name o w = Some (t ++ [EvRequire (candidate name d) (Throw e)], w2, Throw e).
Proof.
  intros Hmd Hrel Hfail Hd He.
  rewrite (load_part000_dirs _ _ _ _ Hmd Hrel).
  rewrite (bind_Ret _ _ _ _ _ _ (some_moduleDirs_all_fail _ _ _ _ _ _ _ _ Hfail Hd _ _)).
  simpl. rewrite He. unfold throw. by rewrite app_nil_r.
Qed.

(** When every base directory fails and the last failure is a falsy value
    ([null], [undefined], [0], [false], the empty string), nothing is
    thrown: [dependency] is still [undefined] and is the result. *)
Lemma load_part000_swallows_falsy name o w pre d t w1 w2 e :
  get_prop o "moduleDir" w = VArr (pre ++ [d]) →
  starts_with name "./" = true →
  fail_all name pre w t w1 →
  host_require (candidate name d) w1 = (w2, Throw e) →
  truthy e = false →
  load_part000 name o w = Some (t ++ [EvRequire (candidate name d) (Throw e)], w2, Ret VUndef).
Proof.
  intros Hmd Hrel Hfail Hd He.
  rewrite (load_part000_dirs _ _ _ _ Hmd Hrel).
  rewrite (bind_Ret _ _ _ _ _ _ (some_moduleDirs_all_fail _ _ _ _ _ _ _ _ Hfail Hd _ _)).
  simpl. rewrite He. unfold ret. by rewrite app_nil_r.
Qed.

(** ** The merge of the options *)

Lemma get_prop_props_of l key w : get_prop l key w = default VUndef (props_of l w !! key).
Proof. unfold get_prop, props_of. by destruct (heap w !! l). Qed.

Lemma props_of_set_props_eq l props w : props_of l (set_props l props w) = props.
Proof. unfold props_of, set_props. simpl. by rewrite lookup_insert_eq. Qed.

Lemma props_of_set_props_ne l l' props w :
  l ≠ l' → props_of l' (set_props l props w) = props_of l' w.
Proof. intros. unfold props_of, set_props. simpl. by rewrite lookup_insert_ne. Qed.

Lemma props_of_fresh w : props_of (fresh (dom (heap w))) w = ∅.
Proof.
  unfold props_of. rewrite (not_elem_of_dom_1 (heap w) (fresh (dom (heap w)))); [done|].
  apply is_fresh.
Qed.

(** The properties of the destination after [_.defaults]. *)
Lemma get_prop_merge_defaults (dst src : gmap string value) key :
  default VUndef (merge defaults_prop dst src !! key) =
    match default VUndef (dst !! key) with
    | VUndef => default VUndef (src !! key)
    | v => v
    end.
Proof.
  rewrite lookup_merge. unfold diag_None, defaults_prop.
  destruct (dst !! key) as [[]|], (src !! key) as [?|]; done.
Qed.

(** ** The claims on the default loader *)

(** C2. In both versions, when the default loader has obtained from the
    host a function [f] that carries an array under
    [options.dependenciesProperty], what it returns (or throws) is what
    [vaccinate(f, options)] does, with the same options object and no
    context, and not [f] itself. *)
Theorem default_require_vaccinates_declaring_function
    ver n name o w t1 w1 f t2 w2 r :
  load ver name o w = Some (t1, w1, Ret (VFun f)) →
  is_array (declaration_of f o w1) = true →
  vaccinate ver n f (Some o) VUndef w1 = Some (t2, w2, r) →
  default_require ver (vaccinate ver n) (VStr name) o w = Some (t1 ++ t2, w2, r).
Proof.
  intros Hload Hdecl Hrec. unfold default_require.
  rewrite (bind_Ret _ _ _ _ _ _ Hload), bind_read, Hdecl. by rewrite Hrec.
Qed.

(** The require step of [src/unnamed/part_000], lines 33-47, for a
    relative name and a list of base directories of which the first ones,
    [pre], fail and the next one, [d], loads the module [v]: the step gives
    [v] and throws nothing, and the host was asked for the candidates of
    [pre] and then of [d], in the order of the list, and for none of the
    directories after [d]. *)
Lemma load_part000_first_success name o w pre d post t w1 w2 v :
  get_prop o "moduleDir" w = VArr (pre ++ d :: post) →
  starts_with name "./" = true →
  fail_all name pre w t w1 →
  host_require (candidate name d) w1 = (w2, Ret v) →
  ∃ tr,
    load Part000 name o w = Some (tr, w2, Ret v) ∧
    requires tr = candidate name <$> (pre ++ [d]).
Proof.
  intros Hmd Hrel Hfail Hd.
  exists (t ++ [EvRequire (candidate name d) (Ret v)]). split.
  - simpl. rewrite (load_part000_dirs _ _ _ _ Hmd Hrel).
    rewrite (bind_Ret _ _ _ _ _ _ (some_moduleDirs_found _ _ _ post _ _ _ _ _ Hfail Hd _ _)).
    simpl. unfold ret. by rewrite app_nil_r.
  - rewrite requires_app, (fail_all_requires _ _ _ _ _ Hfail), fmap_app. done.
Qed.

(** C10. In [src/unnamed/part_000], for a relative name and an empty list
    of base directories, the default loader returns [undefined] without
    asking the host for anything and without throwing; [undefined] is not
    a function, so this is also what [options.require] returns. *)
Theorem default_require_empty_moduleDir n name o w :
  get_prop o "moduleDir" w = VArr [] →
  starts_with name "./" = true →
  load Part000 name o w = Some ([], w, Ret VUndef) ∧
  default_require Part000 (vaccinate Part000 n) (VStr name) o w = Some ([], w, Ret VUndef).
Proof.
  intros Hmd Hrel.
  assert (load Part000 name o w = Some ([], w, Ret VUndef)) as Hload.
  { simpl. by rewrite (load_part000_dirs _ _ _ _ Hmd Hrel). }
  split; [done|]. unfold default_require. by rewrite (bind_Ret _ _ _ _ _ _ Hload).
Qed.

(** ** The claims on the options and the receiver *)

(** C5, as the code has it. Lines 19-20 make no call and never fail when
    [vaccinate.defaults] is an object [d]. They merge into the caller's own
    options object when there is one, and into a fresh object otherwise:
    no other object is modified, [vaccinate.defaults] among them; in the
    options object a property that the caller has set (one that is not
    [undefined]) keeps its value, and a property that is [undefined] or
    missing receives the value that [vaccinate.defaults] has for it. *)
Theorem prepare_options_fills_missing options w d :
  get_prop vaccinate_loc "defaults" w = VObj d →
  ∃ w1 o,
    prepare_options options w = Some ([], w1, Ret o) ∧
    (∀ o', options = Some o' → o = o') ∧
    (options = None → heap w !! o = None) ∧
    (∀ l, l ≠ o → heap w1 !! l = heap w !! l) ∧
    (∀ key, get_prop o key w ≠ VUndef → get_prop o key w1 = get_prop o key w) ∧
    (∀ key, get_prop o key w = VUndef → get_prop o key w1 = get_prop d key w).
Proof.
  intros Hd. unfold prepare_options.
  set (o := match options with Some o' => o' | None => fresh (dom (heap w)) end).
  set (w0 := match options with Some _ => w | None => set_props o ∅ w end).
  assert ((match options with Some o' => ret o' | None => alloc_object end) w
          = Some ([], w0, Ret o)) as Ho by (by destruct options).
  assert (props_of o w0 = props_of o w ∧ props_of d w0 = props_of d w ∧
          get_prop vaccinate_loc "defaults" w0 = VObj d ∧
          ∀ l, l ≠ o → heap w0 !! l = heap w !! l) as (Hpo & Hpd & Hd0 & Hframe).
  { subst o w0. destruct options as [o'|]; [done|].
    rewrite props_of_set_props_eq, props_of_fresh.
    assert (∀ l, props_of l (set_props (fresh (dom (heap w))) ∅ w) = props_of l w) as Hp.
    { intros l. destruct (decide (fresh (dom (heap w)) = l)) as [<-|].
      - by rewrite props_of_set_props_eq, props_of_fresh.
      - by rewrite props_of_set_props_ne. }
    split_and!; [done|apply Hp| |].
    - by rewrite get_prop_props_of, Hp, <-get_prop_props_of.
    - intros l Hl. simpl. by rewrite lookup_insert_ne. }
  exists (set_props o (merge defaults_prop (props_of o w0) (props_of d w0)) w0), o.
  split_and!.
  - rewrite (bind_Ret _ _ _ _ _ _ Ho), bind_read, Hd0. done.
  - intros o' ->. done.
  - intros ->. subst o. apply not_elem_of_dom_1, is_fresh.
  - intros l Hl. simpl. rewrite lookup_insert_ne by done. by apply Hframe.
  - intros key Hkey. rewrite !get_prop_props_of in *.
    rewrite props_of_set_props_eq, get_prop_merge_defaults, Hpo.
    by destruct (default VUndef (props_of o w !! key)).
  - intros key Hkey. rewrite !get_prop_props_of in *.
    by rewrite props_of_set_props_eq, get_prop_merge_defaults, Hpo, Hkey, Hpd.
Qed.

(** C6, as the code has it. When the calls of the loader return, the one
    application of the target has as receiver: in [src/lib/index.js], the
    context when it is truthy, as every object is, and [null] when it is
    missing or falsy; in [src/unnamed/part_000], which takes no context,
    always [null]. *)
Theorem vaccinate_receiver ver n func options context w w1 o items t w2 args :
  prepare_options options w = Some ([], w1, Ret o) →
  declaration_of func o w1 = VArr items →
  map_array (call_require ver (vaccinate ver n) o) items w1 = Some (t, w2, Ret args) →
  ∃ tr w3 r this,
    vaccinate ver (S n) func options context w = Some (tr, w3, r) ∧
    applications tr = [(func, this, args)] ∧
    this = match ver with
           | LibIndex => if truthy context then context else VNull
           | Part000 => VNull
           end.
Proof.
  intros Hprep Hdecl Hmap.
  pose proof (vaccinate_resolved _ _ _ _ context _ _ _ _ _ _ _ Hprep Hdecl Hmap) as Hrun.
  apply map_array_call_require in Hmap as (_ & Ha & _ & _).
  eexists _, _, _, _. split; [exact Hrun|].
  rewrite applications_app, Ha. done.
Qed.

(** ** The two versions compared *)

Section Agreement.

(** A [moduleDir] that [src/lib/index.js] documents: one base path, or
    none ([undefined], or another falsy value). *)
Definition simple_moduleDir (v : value) : bool :=
  is_string v || negb (truthy v).

(** No object of the heap has another kind of [moduleDir]: neither the
    options of a call, nor [vaccinate.defaults], whatever they are when a
    call reads them. *)
Definition moduleDirs_simple (w : world) : Prop :=
  ∀ l, simple_moduleDir (get_prop l "moduleDir" w) = true.

(** The code outside the two files keeps it so. *)
Hypothesis host_require_simple : ∀ path w,
  moduleDirs_simple w → moduleDirs_simple (host_require path w).1.
Hypothesis call_simple : ∀ f this args w,
  moduleDirs_simple w → moduleDirs_simple (call f this args w).1.

(** What the host's [require] throws is truthy, as every object is. *)
Hypothesis host_require_truthy : ∀ path w e,
  (host_require path w).2 = Throw e → truthy e = true.

(** Two computations that do the same from every world with simple
    [moduleDir]s, and lead to such a world. *)
Definition agree {A} (m1 m2 : M A) : Prop :=
  ∀ w, moduleDirs_simple w →
    m1 w = m2 w ∧ ∀ t w' r, m1 w = Some (t, w', r) → moduleDirs_simple w'.

Lemma moduleDirs_simple_heap w :
  map_Forall (λ _ props, simple_moduleDir (default VUndef (props !! "moduleDir")) = true)
    (heap w) →
  moduleDirs_simple w.
Proof.
  intros Hall l. unfold get_prop.
  destruct (heap w !! l) as [props|] eqn:Hl; simpl; [|done]. by eapply Hall.
Qed.

Lemma agree_bind {A B} (m1 m2 : M A) (k1 k2 : A → M B) :
  agree m1 m2 → (∀ a, agree (k1 a) (k2 a)) → agree (bind m1 k1) (bind m2 k2).
Proof.
  intros Hm Hk w Hw. destruct (Hm w Hw) as [Heq Hpres]. unfold bind.
  rewrite <-Heq. destruct (m1 w) as [[[t1 w1] [a|e]]|] eqn:Hm1; [| |done].
  - destruct (Hk a w1) as [Hkeq Hkpres]; [by eapply Hpres|]. rewrite <-Hkeq.
    split; [done|]. intros t w' r.
    destruct (k1 a w1) as [[[t2 w2] r2]|]; [|done].
    intros [= <- <- <-]. by eapply Hkpres.
  - split; [done|]. intros t w' r [= <- <- <-]. by eapply Hpres.
Qed.

Lemma agree_ret {A} (a : A) : agree (ret a) (ret a).
Proof. intros w Hw. split; [done|]. by intros t w' r [= <- <- <-]. Qed.

Lemma agree_throw {A} e : agree (throw (A := A) e) (throw e).
Proof. intros w Hw. split; [done|]. by intros t w' r [= <- <- <-]. Qed.

Lemma agree_read {A} (f : world → A) : agree (read f) (read f).
Proof. intros w Hw. split; [done|]. by intros t w' r [= <- <- <-]. Qed.

Lemma agree_unmodelled {A} : agree (unmodelled (A := A)) unmodelled.
Proof. intros w Hw. split; done. Qed.

Lemma agree_host path : agree (host path) (host path).
Proof.
  intros w Hw. split; [done|]. rewrite host_eq.
  intros t w' r [= <- <- <-]. by apply host_require_simple.
Qed.

Lemma agree_apply func this args : agree (apply func this args) (apply func this args).
Proof.
  intros w Hw. split; [done|]. rewrite apply_eq.
  intros t w' r [= <- <- <-]. by apply call_simple.
Qed.

Lemma agree_loading reference m1 m2 :
  agree m1 m2 → agree (loading reference m1) (loading reference m2).
Proof.
  intros Hm w Hw. destruct (Hm w Hw) as [Heq Hpres]. unfold loading.
  rewrite <-Heq. split; [done|].
  destruct (m1 w) as [[[t1 w1] r1]|]; [|done].
  intros t w' r [= <- <- <-]. by eapply Hpres.
Qed.

Lemma agree_map_array {A B} (f1 f2 : A → M B) items :
  (∀ x, agree (f1 x) (f2 x)) → agree (map_array f1 items) (map_array f2 items).
Proof.
  intros Hf. induction items as [|x items IH]; simpl.
  - apply agree_ret.
  - apply agree_bind; [apply Hf|]. intros y.
    apply agree_bind; [apply IH|]. intros ys. apply agree_ret.
Qed.

Lemma agree_no_array_method {A} x method :
  agree (no_array_method (A := A) x method) (no_array_method x method).
Proof.
  destruct x; simpl; try apply agree_throw;
    (apply agree_bind; [apply agree_read|]; intros m;
     destruct (is_function m); [apply agree_unmodelled|apply agree_throw]).
Qed.

Lemma get_prop_set_props l key o props w :
  get_prop l key (set_props o props w) =
    if decide (o = l) then default VUndef (props !! key) else get_prop l key w.
Proof.
  unfold get_prop, set_props. simpl. case_decide as Hl.
  - subst. by rewrite lookup_insert_eq.
  - by rewrite lookup_insert_ne.
Qed.

Lemma agree_prepare_options options :
  agree (prepare_options options) (prepare_options options).
Proof.
  unfold prepare_options. apply agree_bind.
  { destruct options; [apply agree_ret|].
    intros w Hw. split; [done|]. intros t w' r [= <- <- <-] l.
    rewrite get_prop_set_props. case_decide; [done|apply Hw]. }
  intros o. apply agree_bind; [apply agree_read|]. intros defaults.
  apply agree_bind; [|intros; apply agree_ret].
  destruct defaults; simpl; try apply agree_ret; try apply agree_unmodelled.
  all: intros w Hw; (split; [done|]); intros t w' r [= <- <- <-] l'.
  all: rewrite get_prop_set_props; case_decide; [|apply Hw].
  all: rewrite get_prop_merge_defaults, <-!get_prop_props_of.
  all: pose proof (Hw o) as Ho; destruct (get_prop o "moduleDir" w); try done; apply Hw.
Qed.

(** The loaders of the two versions on a simple [moduleDir]. *)
Lemma agree_load name options : agree (load_lib name options) (load_part000 name options).
Proof.
  intros w Hw. split.
  - unfold load_lib, load_part000. rewrite !bind_read.
    pose proof (Hw options) as Hmd. unfold simple_moduleDir in Hmd.
    destruct (truthy (get_prop options "moduleDir" w)) eqn:Htruthy; [|done].
    destruct (get_prop options "moduleDir" w) as [| | | |dir| | | |]; try done.
    destruct (starts_with name "./"); [|done]. cbn [andb is_string].
    unfold bind.
    rewrite some_moduleDirs_cons, host_eq.
    pose proof (host_require_truthy (candidate name (VStr dir)) w) as Hthrown.
    destruct (host_require (candidate name (VStr dir)) w) as [w1 [v|e]]; simpl; [done|].
    by rewrite (Hthrown e).
  - unfold load_lib. rewrite bind_read, host_eq.
    intros t w' r [= <- <- <-]. by apply host_require_simple.
Qed.

Lemma agree_default_require rec1 rec2 module options :
  (∀ f o, agree (rec1 f o VUndef) (rec2 f o VUndef)) →
  agree (default_require LibIndex rec1 module options)
        (default_require Part000 rec2 module options).
Proof.
  intros Hrec. unfold default_require.
  destruct module; try apply agree_ret.
  apply agree_bind; [apply agree_load|]. intros dependency.
  destruct dependency; try apply agree_ret.
  apply agree_bind; [apply agree_read|]. intros declaration.
  destruct (is_array declaration); [apply Hrec|apply agree_ret].
Qed.

Lemma agree_call_require rec1 rec2 options module :
  (∀ f o, agree (rec1 f o VUndef) (rec2 f o VUndef)) →
  agree (call_require LibIndex rec1 options module)
        (call_require Part000 rec2 options module).
Proof.
  intros Hrec. unfold call_require.
  apply agree_bind; [apply agree_read|]. intros require.
  destruct require; try apply agree_throw.
  apply agree_loading. case_decide; [by apply agree_default_require|apply agree_apply].
Qed.

Lemma agree_vaccinate n func options :
  agree (vaccinate LibIndex n func options VUndef) (vaccinate Part000 n func options VUndef).
Proof.
  revert func options. induction n as [|n IH]; intros func options; simpl.
  { intros w Hw. split; done. }
  unfold vaccinate_body.
  apply agree_bind; [apply agree_prepare_options|]. intros o.
  apply agree_bind; [apply agree_read|]. intros declaration.
  apply agree_bind; [|intros args; apply agree_apply].
  unfold map_declaration. destruct declaration; try apply agree_no_array_method.
  apply agree_map_array. intros module. by apply agree_call_require.
Qed.

(** Called with no context, the two versions do the same when no object
    of the heap has a list as [moduleDir], none is given one on the way,
    and what the host's [require] throws is truthy: the same
    events (the same calls of the loader and of the host, with the same
    outcomes, and the same application of the target), the same world and
    the same returned or thrown value, with the same fuel. *)
Theorem versions_agree_on_simple_moduleDir n func options w :
  moduleDirs_simple w →
  vaccinate LibIndex n func options VUndef w = vaccinate Part000 n func options VUndef w.
Proof. intros Hw. by apply agree_vaccinate. Qed.

End Agreement.

(** ** More on the default loader *)

Lemma load_as_is ver name o w :
  truthy (get_prop o "moduleDir" w) && starts_with name "./" = false →
  load ver name o w = host name w.
Proof.
  intros H. destruct ver; simpl; unfold load_lib, load_part000;
    by rewrite bind_read, H.
Qed.



(** A [moduleDir] that is truthy and neither a string, an array nor an
    object (a number, [true]): for a relative name [src/lib/index.js]
    requires the path made with its string form, and
    [src/unnamed/part_000] throws a [TypeError] without asking the host. *)
Theorem load_moduleDir_not_a_path name o w :
  truthy (get_prop o "moduleDir" w) = true →
  match get_prop o "moduleDir" w with
  | VBool _ | VNum _ => True
  | _ => False
  end →
  starts_with name "./" = true →
  load LibIndex name o w = host (candidate name (get_prop o "moduleDir" w)) w ∧
  load Part000 name o w = Some ([], w, Throw VTypeError).
Proof.
  intros Htruthy Hkind Hrel. simpl. unfold load_lib, load_part000.
  rewrite !bind_read, Htruthy, Hrel.
  by destruct (get_prop o "moduleDir" w).
Qed.

(** A loaded value that is not a function, or a function without an array
    under [options.dependenciesProperty], is the result as it is: the
    default loader applies nothing and needs no fuel. *)
Theorem default_require_keeps_raw_value ver rec name o w t1 w1 v :
  load ver name o w = Some (t1, w1, Ret v) →
  match v with
  | VFun f => is_array (declaration_of f o w1) = false
  | _ => True
  end →
  default_require ver rec (VStr name) o w = Some (t1, w1, Ret v).
Proof.
  intros Hload Hraw. unfold default_require.
  rewrite (bind_Ret _ _ _ _ _ _ Hload).
  destruct v; try (unfold ret; by rewrite app_nil_r).
  rewrite bind_read, Hraw. unfold ret. by rewrite app_nil_r.
Qed.

(** ** More on [vaccinate] *)

(** The default loader on values that are not strings: each is its own
    result, nothing else happens. *)
Lemma map_array_pass_through ver rec o items w :
  Forall (λ v, is_string v = false) items →
  get_prop o "require" w = VFun require_loc →
  map_array (call_require ver rec o) items w =
    Some ((λ v, EvLoad v [] (Ret v)) <$> items, w, Ret items).
Proof.
  intros Hitems Hreq. induction Hitems as [|v items Hv _ IH]; [done|].
  assert (call_require ver rec o v w = Some ([EvLoad v [] (Ret v)], w, Ret v)) as Hcall.
  { unfold call_require. rewrite bind_read, Hreq. unfold loading.
    rewrite decide_True by done. by destruct v. }
  simpl map_array. rewrite (bind_Ret _ _ _ _ _ _ Hcall), (bind_Ret _ _ _ _ _ _ IH).
  unfold ret. simpl. by rewrite app_nil_r.
Qed.

(** With the default loader and a declaration without any string, the
    target receives the declared values themselves, in order: the host is
    not asked for anything, no fuel is needed beyond the call itself, and
    the run is the loader calls followed by the one application. *)
Theorem vaccinate_passes_values_through ver n func options context w w1 o items :
  prepare_options options w = Some ([], w1, Ret o) →
  declaration_of func o w1 = VArr items →
  Forall (λ v, is_string v = false) items →
  get_prop o "require" w1 = VFun require_loc →
  let this := receiver ver context in
  vaccinate ver (S n) func options context w =
    Some (((λ v, EvLoad v [] (Ret v)) <$> items) ++
            [EvApply func this items (call func this items w1).2],
          (call func this items w1).1, (call func this items w1).2).
Proof.
  intros Hprep Hdecl Hitems Hreq this.
  apply (vaccinate_resolved _ _ _ _ _ _ _ _ _ _ _ _ Hprep Hdecl).
  by apply map_array_pass_through.
Qed.

(** When [options.require] is not a function and the declaration has at
    least one entry, [vaccinate] throws a [TypeError] before any loader
    call or application. *)
Theorem vaccinate_require_not_a_function
    ver n func options context w w1 o reference rest :
  prepare_options options w = Some ([], w1, Ret o) →
  declaration_of func o w1 = VArr (reference :: rest) →
  is_function (get_prop o "require" w1) = false →
  vaccinate ver (S n) func options context w = Some ([], w1, Throw VTypeError).
Proof.
  intros Hprep Hdecl Hreq.
  rewrite (vaccinate_S _ _ _ _ _ _ _ _ Hprep), Hdecl. simpl.
  assert (call_require ver (vaccinate ver n) o reference w1
          = Some ([], w1, Throw VTypeError)) as Hcall.
  { unfold call_require. rewrite bind_read.
    by destruct (get_prop o "require" w1). }
  by rewrite (bind_Throw _ _ _ _ _ _ (bind_Throw _ _ _ _ _ _ Hcall)).
Qed.

(** The loader calls that [map] makes when one of them throws: for some
    first entries of the declaration, and no application of its own. *)
Lemma map_array_call_require_Throw ver rec o items : ∀ w t w' e,
  map_array (call_require ver rec o) items w = Some (t, w', Throw e) →
  (loads t).*1 `prefix_of` items ∧ applications t = [].
Proof.
  induction items as [|x items IH]; simpl; intros w t w' e H; [done|].
  apply bind_Some in H as [(e' & Hx & _)|(t1 & w1 & y & t2 & Hx & H & ->)].
  - apply call_require_Some in Hx as [[inner ->]|(-> & _)].
    + split; [|done]. simpl. by apply prefix_cons, prefix_nil.
    + split; [apply prefix_nil|done].
  - apply call_require_Some in Hx as [[inner ->]|(_ & _ & ? & _)]; [|done].
    apply bind_Some in H as [(e' & Hrest & _)|(t3 & w3 & ys & t4 & _ & H & _)];
      [|done].
    apply IH in Hrest as [Hl Ha]. split; [|done]. simpl. by apply prefix_cons.
Qed.

(** Whatever the loaders do, a run of [vaccinate] that ends applies the
    target at most once. Either a loader call threw: the run throws, has
    applied nothing, and has called the loader for first entries of the
    declaration only. Or every entry was loaded, in order, and the last
    event of the run is the one application of the target, to all the
    resolved values, whose outcome (returned or thrown) is the outcome of
    the run. *)
Theorem vaccinate_applies_at_most_once
    ver n func options context w w1 o items tr w' r :
  prepare_options options w = Some ([], w1, Ret o) →
  declaration_of func o w1 = VArr items →
  vaccinate ver (S n) func options context w = Some (tr, w', r) →
  (∃ e, r = Throw e ∧ applications tr = [] ∧ (loads tr).*1 `prefix_of` items) ∨
  (∃ t args,
     tr = t ++ [EvApply func (receiver ver context) args r] ∧
     loads t = zip items (Ret <$> args) ∧ length args = length items ∧
     applications t = []).
Proof.
  intros Hprep Hdecl Hrun.
  rewrite (vaccinate_S _ _ _ _ _ _ _ _ Hprep), Hdecl in Hrun. simpl in Hrun.
  apply bind_Some in Hrun as [(e & Hmap & ->)|(t & w2 & args & t2 & Hmap & Happ & ->)].
  - left. exists e. apply map_array_call_require_Throw in Hmap as [Hl Ha]. done.
  - right. exists t, args. rewrite apply_eq in Happ. simplify_eq.
    apply map_array_call_require in Hmap as (Hl & Ha & _ & Hlen). done.
Qed.

(** ** An overriding loader *)

(** The events of a run whose loader is the function [l]: each loader
    call is one application of [l] to the reference and the options, with
    the options as receiver, and its outcome is the outcome of the call. *)
Definition loaded_by (l o : loc) (ev : event) : Prop :=
  match ev with
  | EvLoad reference inner r => inner = [EvApply l (VObj o) [reference; VObj o] r]
  | _ => False
  end.

Lemma map_array_loaded_by ver rec o l items :
  l ≠ require_loc →
  (∀ this args w,
     get_prop o "require" w = VFun l →
     get_prop o "require" (call l this args w).1 = VFun l) →
  ∀ w, get_prop o "require" w = VFun l →
  ∃ t w' r,
    map_array (call_require ver rec o) items w = Some (t, w', r) ∧
    Forall (loaded_by l o) t ∧ get_prop o "require" w' = VFun l.
Proof.
  intros Hl Hkeep. induction items as [|x items IH]; intros w Hreq.
  { exists [], w, (Ret []). done. }
  assert (call_require ver rec o x w =
            Some ([EvLoad x [EvApply l (VObj o) [x; VObj o]
                               (call l (VObj o) [x; VObj o] w).2]
                     (call l (VObj o) [x; VObj o] w).2],
                  (call l (VObj o) [x; VObj o] w).1,
                  (call l (VObj o) [x; VObj o] w).2)) as Hcall.
  { unfold call_require. rewrite bind_read, Hreq. unfold loading.
    rewrite decide_False by done. by rewrite apply_eq. }
  pose proof (Hkeep (VObj o) [x; VObj o] w Hreq) as Hreq1.
  destruct (call l (VObj o) [x; VObj o] w) as [w1 [y|e]]; simpl in *.
  - destruct (IH w1 Hreq1) as (t & w' & r & Hrest & Ht & Hreq').
    exists (EvLoad x [EvApply l (VObj o) [x; VObj o] (Ret y)] (Ret y) :: t), w'.
    destruct r as [ys|e].
    + exists (Ret (y :: ys)). split_and!; [|by apply Forall_cons|exact Hreq'].
      simpl map_array.
      rewrite (bind_Ret _ _ _ _ _ _ Hcall), (bind_Ret _ _ _ _ _ _ Hrest).
      unfold ret. simpl. by rewrite app_nil_r.
    + exists (Throw e). split_and!; [|by apply Forall_cons|exact Hreq'].
      simpl map_array.
      by rewrite (bind_Ret _ _ _ _ _ _ Hcall), (bind_Throw _ _ _ _ _ _ Hrest).
  - exists [EvLoad x [EvApply l (VObj o) [x; VObj o] (Throw e)] (Throw e)], w1, (Throw e).
    split_and!; [|by apply Forall_singleton|exact Hreq1].
    simpl map_array. by rewrite (bind_Throw _ _ _ _ _ _ Hcall).
Qed.

(** With [options.require] overridden by a function [l] that leaves
    [options.require] as it is, the default loader is out of the way, in
    both versions: the run of [vaccinate] ends with one unit of fuel (no
    recursion), the host's [require] is never called by the run, and each
    loader call is one application of [l] to the reference and the
    options. *)
Theorem vaccinate_overridden_require ver func options context w w1 o items l :
  prepare_options options w = Some ([], w1, Ret o) →
  declaration_of func o w1 = VArr items →
  get_prop o "require" w1 = VFun l →
  l ≠ require_loc →
  (∀ this args w,
     get_prop o "require" w = VFun l →
     get_prop o "require" (call l this args w).1 = VFun l) →
  ∃ t tr w' r,
    vaccinate ver 1 func options context w = Some (tr, w', r) ∧
    Forall (loaded_by l o) t ∧
    (tr = t ∨ ∃ args, tr = t ++ [EvApply func (receiver ver context) args r]).
Proof.
  intros Hprep Hdecl Hreq Hl Hkeep.
  destruct (map_array_loaded_by ver (vaccinate ver 0) o l items Hl Hkeep w1 Hreq)
    as (t & w2 & r & Hmap & Ht & _).
  rewrite (vaccinate_S _ _ _ _ _ _ _ _ Hprep), Hdecl. simpl.
  destruct r as [args|e].
  - eexists t, _, _, _. split_and!; [|exact Ht|right; by eexists].
    by rewrite (bind_Ret _ _ _ _ _ _ Hmap), apply_eq.
  - exists t, t, w2, (Throw e). split_and!; [|exact Ht|by left].
    by rewrite (bind_Throw _ _ _ _ _ _ Hmap).
Qed.

(** ** More on the merge of the options *)

(** Lines 19-20 on an options object, by what [vaccinate.defaults] is. *)
Lemma prepare_options_Some_eq o w :
  prepare_options (Some o) w =
    match get_prop vaccinate_loc "defaults" w with
    | VObj s | VFun s =>
        Some ([], set_props o (merge defaults_prop (props_of o w) (props_of s w)) w, Ret o)
    | VStr _ | VArr _ => None
    | _ => Some ([], w, Ret o)
    end.
Proof.
  unfold prepare_options.
  rewrite (bind_Ret (ret o) _ w [] w o eq_refl), bind_read.
  by destruct (get_prop vaccinate_loc "defaults" w).
Qed.

Lemma prepare_options_given o w t w1 r :
  prepare_options (Some o) w = Some (t, w1, r) →
  t = [] ∧ r = Ret o ∧
  (∀ l, l ≠ o → heap w1 !! l = heap w !! l) ∧
  (∀ key, get_prop o key w ≠ VUndef → get_prop o key w1 = get_prop o key w).
Proof.
  rewrite prepare_options_Some_eq.
  destruct (get_prop vaccinate_loc "defaults" w); intros H; simplify_eq; try done.
  all: split_and!; try done.
  all: try (intros l' Hl'; simpl; by rewrite lookup_insert_ne).
  all: intros key Hkey; rewrite get_prop_set_props, decide_True by done.
  all: rewrite get_prop_merge_defaults, <-get_prop_props_of.
  all: by destruct (get_prop o key w).
Qed.

Lemma merge_defaults_idemp (dst src : gmap string value) :
  merge defaults_prop (merge defaults_prop dst src) src = merge defaults_prop dst src.
Proof.
  apply map_eq. intros key. rewrite !lookup_merge.
  destruct (dst !! key) as [[]|], (src !! key) as [[]|]; done.
Qed.

Lemma merge_defaults_diag (m : gmap string value) : merge defaults_prop m m = m.
Proof.
  apply map_eq. intros key. rewrite lookup_merge.
  by destruct (m !! key) as [[]|].
Qed.

Lemma set_props_set_props o p q w : set_props o p (set_props o q w) = set_props o p w.
Proof. unfold set_props. simpl. by rewrite insert_insert_eq. Qed.

(** Merging twice is merging once: when lines 19-20 have run on an
    options object, running them again on the same object, as every
    recursive call does, changes nothing. *)
Theorem prepare_options_idempotent o w w1 :
  prepare_options (Some o) w = Some ([], w1, Ret o) →
  prepare_options (Some o) w1 = Some ([], w1, Ret o).
Proof.
  rewrite !prepare_options_Some_eq.
  destruct (get_prop vaccinate_loc "defaults" w) as [| | | | | |s|s|] eqn:Hd;
    intros H; simplify_eq; try by rewrite Hd.
  all: set (merged := merge defaults_prop (props_of o w) (props_of s w)).
  all: assert (get_prop vaccinate_loc "defaults" (set_props o merged w)
               = get_prop vaccinate_loc "defaults" w) as ->.
  1,3: rewrite get_prop_set_props; case_decide as Ho; [subst o|done];
       unfold merged; rewrite get_prop_merge_defaults, <-get_prop_props_of, Hd; done.
  all: rewrite Hd, props_of_set_props_eq, set_props_set_props.
  all: do 3 f_equal; f_equal.
  all: destruct (decide (o = s)) as [->|Hs].
  1,3: rewrite props_of_set_props_eq; unfold merged;
       by rewrite !merge_defaults_diag.
  all: rewrite props_of_set_props_ne by done; apply merge_defaults_idemp.
Qed.

(** The name under which the declaration is read is the caller's
    [dependenciesProperty] when the options have one, and the one of
    [vaccinate.defaults] otherwise. *)
Theorem declaration_read_under_effective_property func o w d :
  get_prop vaccinate_loc "defaults" w = VObj d →
  func ≠ o →
  let key :=
    match get_prop o "dependenciesProperty" w with
    | VUndef => get_prop d "dependenciesProperty" w
    | v => v
    end in
  ∃ w1,
    prepare_options (Some o) w = Some ([], w1, Ret o) ∧
    declaration_of func o w1 = get_prop func (to_string key) w.
Proof.
  intros Hd Hfunc key. rewrite prepare_options_Some_eq, Hd.
  eexists. split; [done|]. unfold declaration_of.
  rewrite !get_prop_set_props, (decide_True (P := o = o)) by done.
  rewrite (decide_False (P := o = func)) by (by intros ->).
  rewrite get_prop_merge_defaults, <-!get_prop_props_of. done.
Qed.

(** ** A circular dependency *)

(** A function whose declaration begins with the name of the module that
    exports it: [vaccinate] on it never returns, whatever the fuel. The
    name is not relative, the host returns the function for it and leaves
    the world as it is, and the options have the default loader. *)
Theorem vaccinate_circular_never_returns ver name f o key rest :
  starts_with name "./" = false →
  f ≠ o →
  key ≠ VUndef →
  (∀ w, host_require name w = (w, Ret (VFun f))) →
  ∀ n context w,
    get_prop o "require" w = VFun require_loc →
    get_prop o "dependenciesProperty" w = key →
    get_prop f (to_string key) w = VArr (VStr name :: rest) →
    vaccinate ver n f (Some o) context w = None.
Proof.
  intros Hname Hf Hkey Hhost n. induction n as [|n IH]; intros context w Hreq Hprop Hdecl;
    [done|].
  simpl. unfold vaccinate_body.
  destruct (prepare_options (Some o) w) as [[[t w1] r]|] eqn:Hprep;
    [|unfold bind; by rewrite Hprep].
  apply prepare_options_given in Hprep as Hgiven.
  destruct Hgiven as (-> & -> & Hframe & Hkept).
  assert (get_prop o "require" w1 = VFun require_loc) as Hreq1.
  { rewrite Hkept; [done|]. by rewrite Hreq. }
  assert (get_prop o "dependenciesProperty" w1 = key) as Hprop1.
  { rewrite Hkept; [done|]. by rewrite Hprop. }
  assert (get_prop f (to_string key) w1 = VArr (VStr name :: rest)) as Hdecl1.
  { unfold get_prop in *. by rewrite Hframe. }
  rewrite (bind_Ret _ _ _ _ _ _ Hprep), bind_read.
  unfold declaration_of at 1. rewrite Hprop1, Hdecl1. simpl.
  assert (call_require ver (vaccinate ver n) o (VStr name) w1 = None) as Hcall.
  { unfold call_require. rewrite bind_read, Hreq1. unfold loading.
    rewrite decide_True by done. unfold default_require.
    assert (load ver name o w1 = Some ([EvRequire name (Ret (VFun f))], w1, Ret (VFun f)))
      as Hload.
    { rewrite load_as_is, host_eq, Hhost; [done|]. by rewrite Hname, andb_false_r. }
    rewrite (bind_Ret _ _ _ _ _ _ Hload), bind_read.
    unfold declaration_of. rewrite Hprop1, Hdecl1. simpl.
    by rewrite (IH VUndef w1 Hreq1 Hprop1 Hdecl1). }
  unfold bind at 1 2. by rewrite Hcall.
Qed.

(** ** The first base directory that has the module *)

(** A loaded value that the default loader vaccinates: a function with an
    array under [options.dependenciesProperty]. *)
Definition declares_dependencies (v : value) (o : loc) (w : world) : bool :=
  match v with
  | VFun f => is_array (declaration_of f o w)
  | _ => false
  end.

(** The events of [vaccinate] itself hold no call of the host: the host
    is only called inside a loader call. *)
Lemma map_array_call_require_requires ver rec o items : ∀ w t w' r,
  map_array (call_require ver rec o) items w = Some (t, w', r) → requires t = [].
Proof.
  induction items as [|x items IH]; simpl; intros w t w' r H.
  { unfold ret in H. by simplify_eq. }
  assert (∀ w t w' r, call_require ver rec o x w = Some (t, w', r) → requires t = [])
    as Hcall.
  { intros ? ? ? ? Hx. by apply call_require_Some in Hx as [[inner ->]|(-> & _)]. }
  apply bind_Some in H as [(e & Hx & _)|(t1 & w1 & y & t2 & Hx & H & ->)];
    [by eapply Hcall|].
  rewrite requires_app, (Hcall _ _ _ _ Hx). simpl.
  apply bind_Some in H as [(e & Hrest & _)|(t3 & w3 & ys & t4 & Hrest & H & ->)];
    [by eapply IH|].
  unfold ret in H. simplify_eq. rewrite app_nil_r. by eapply IH.
Qed.

Lemma vaccinate_requires ver n func options context w t w' r :
  vaccinate ver n func options context w = Some (t, w', r) → requires t = [].
Proof.
  destruct n as [|n]; [done|]. intros H.
  change (vaccinate_body ver (vaccinate ver n) func options context w = Some (t, w', r)) in H.
  unfold vaccinate_body in H.
  apply bind_Some in H as [(e & H & _)|(t1 & w1 & o & t2 & Hprep & H & ->)].
  { by apply prepare_options_Some in H as [-> _]. }
  apply prepare_options_Some in Hprep as [-> _]. simpl.
  rewrite bind_read in H.
  assert (∀ t w' r,
            map_declaration ver (vaccinate ver n) o (declaration_of func o w1) w1
            = Some (t, w', r) → requires t = []) as Hmap.
  { intros t3 w3 r3. unfold map_declaration.
    destruct (declaration_of func o w1) as [| | | | |items|l|l|]; simpl;
      try (by intros [= <- <- <-]);
      try apply map_array_call_require_requires.
    all: rewrite bind_read; destruct (is_function (get_prop l "map" w1));
      [done|by intros [= <- <- <-]]. }
  apply bind_Some in H as [(e & H & _)|(t3 & w3 & args & t4 & H & Happ & ->)];
    [by eapply Hmap|].
  rewrite requires_app, (Hmap _ _ _ H). rewrite apply_eq in Happ. by simplify_eq.
Qed.

(** C4, as the code has it. In [src/unnamed/part_000], when the default
    loader resolves a relative name against a list of base directories of
    which the first ones, [pre], fail and the next one, [d], has the module
    [v], the search stops at [d]: the host is asked for the candidates of
    [pre] and then of [d], in the order of the list, and for none of the
    later directories, and the failures of [pre] are not raised. The
    resolved value is [v] itself when [v] is not a function that declares
    dependencies. When it is one, the loader resolves to what [vaccinate]
    on [v] gives, with the same options: its returned value, or the error
    it raises. *)
Theorem default_require_first_success n name o w pre d post t w1 w2 v :
  get_prop o "moduleDir" w = VArr (pre ++ d :: post) →
  starts_with name "./" = true →
  fail_all name pre w t w1 →
  host_require (candidate name d) w1 = (w2, Ret v) →
  let found := t ++ [EvRequire (candidate name d) (Ret v)] in
  requires found = candidate name <$> (pre ++ [d]) ∧
  (declares_dependencies v o w2 = false →
     default_require Part000 (vaccinate Part000 n) (VStr name) o w
     = Some (found, w2, Ret v)) ∧
  (∀ f t2 w3 r,
     v = VFun f →
     declares_dependencies v o w2 = true →
     vaccinate Part000 n f (Some o) VUndef w2 = Some (t2, w3, r) →
     default_require Part000 (vaccinate Part000 n) (VStr name) o w
     = Some (found ++ t2, w3, r) ∧
     requires (found ++ t2) = candidate name <$> (pre ++ [d])).
Proof.
  intros Hmd Hrel Hfail Hd found.
  assert (load Part000 name o w = Some (found, w2, Ret v)) as Hload.
  { simpl. rewrite (load_part000_dirs _ _ _ _ Hmd Hrel).
    rewrite (bind_Ret _ _ _ _ _ _ (some_moduleDirs_found _ _ _ post _ _ _ _ _ Hfail Hd _ _)).
    simpl. unfold ret. by rewrite app_nil_r. }
  assert (requires found = candidate name <$> (pre ++ [d])) as Hreq.
  { unfold found. by rewrite requires_app, (fail_all_requires _ _ _ _ _ Hfail), fmap_app. }
  split_and!; [done| |].
  - intros Hraw. unfold default_require. rewrite (bind_Ret _ _ _ _ _ _ Hload).
    destruct v; try (unfold ret; by rewrite app_nil_r).
    simpl in Hraw. rewrite bind_read, Hraw. unfold ret. by rewrite app_nil_r.
  - intros f t2 w3 r -> Hdecl Hrec. simpl in Hdecl. split.
    + unfold default_require.
      rewrite (bind_Ret _ _ _ _ _ _ Hload), bind_read, Hdecl. by rewrite Hrec.
    + by rewrite requires_app, Hreq, (vaccinate_requires _ _ _ _ _ _ _ _ _ Hrec), app_nil_r.
Qed.

(** ** What [vaccinate] writes *)

Section Frame.

(** The host's [require] and the functions outside the two files leave
    the heap as it is (they may change the rest of the world). *)
Hypothesis host_require_heap : ∀ path w, heap (host_require path w).1 = heap w.
Hypothesis call_heap : ∀ f this args w, heap (call f this args w).1 = heap w.

(** A computation that changes no object but the one at [o]. *)
Definition writes_only {A} (o : loc) (m : M A) : Prop :=
  ∀ w t w' r, m w = Some (t, w', r) → ∀ l, l ≠ o → heap w' !! l = heap w !! l.

Lemma writes_only_bind {A B} o (m : M A) (k : A → M B) :
  writes_only o m →
  (∀ a w t w1, m w = Some (t, w1, Ret a) → writes_only o (k a)) →
  writes_only o (bind m k).
Proof.
  intros Hm Hk w t w' r H l Hl.
  apply bind_Some in H as [(e & H & _)|(t1 & w1 & a & t2 & H & H2 & _)].
  - by eapply Hm.
  - rewrite (Hk _ _ _ _ H _ _ _ _ H2 l Hl). by eapply Hm.
Qed.

Lemma writes_only_pure {A} o (m : M A) :
  (∀ w t w' r, m w = Some (t, w', r) → heap w' = heap w) → writes_only o m.
Proof. intros Hm w t w' r H l _. by rewrite (Hm _ _ _ _ H). Qed.

Lemma writes_only_ret {A} o (a : A) : writes_only o (ret a).
Proof. apply writes_only_pure. by intros w t w' r [= <- <- <-]. Qed.

Lemma writes_only_throw {A} o e : writes_only o (throw (A := A) e).
Proof. apply writes_only_pure. by intros w t w' r [= <- <- <-]. Qed.

Lemma writes_only_read {A} o (f : world → A) : writes_only o (read f).
Proof. apply writes_only_pure. by intros w t w' r [= <- <- <-]. Qed.

Lemma writes_only_host o path : writes_only o (host path).
Proof.
  apply writes_only_pure. intros w t w' r. rewrite host_eq.
  intros [= <- <- <-]. apply host_require_heap.
Qed.

Lemma writes_only_apply o func this args : writes_only o (apply func this args).
Proof.
  apply writes_only_pure. intros w t w' r. rewrite apply_eq.
  intros [= <- <- <-]. apply call_heap.
Qed.

Lemma writes_only_no_array_method {A} o x method :
  writes_only o (no_array_method (A := A) x method).
Proof.
  destruct x; simpl; try apply writes_only_throw;
    (apply writes_only_bind; [apply writes_only_read|]; intros m _ _ _ _;
     destruct (is_function m); [by intros w t w' r|apply writes_only_throw]).
Qed.

Lemma writes_only_some_moduleDirs o module dirs : ∀ dependency ex,
  writes_only o (some_moduleDirs module dirs dependency ex).
Proof.
  induction dirs as [|d dirs IH]; intros dependency ex; simpl.
  - apply writes_only_ret.
  - apply writes_only_bind.
    + intros w t w' r. unfold attempt. rewrite host_eq.
      intros [= <- <- <-] l _. by rewrite host_require_heap.
    + intros [v|e] _ _ _ _; [apply writes_only_ret|apply IH].
Qed.

Lemma writes_only_load o ver name options : writes_only o (load ver name options).
Proof.
  destruct ver; simpl; unfold load_lib, load_part000.
  - apply writes_only_bind; [apply writes_only_read|]. intros; apply writes_only_host.
  - apply writes_only_bind; [apply writes_only_read|]. intros moduleDir _ _ _ _.
    destruct (truthy moduleDir && starts_with name "./"); [|apply writes_only_host].
    destruct (if is_string moduleDir then VArr [moduleDir] else moduleDir);
      try apply writes_only_no_array_method.
    apply writes_only_bind; [apply writes_only_some_moduleDirs|].
    intros [dependency ex] _ _ _ _.
    destruct (truthy ex); [apply writes_only_throw|apply writes_only_ret].
Qed.

Lemma writes_only_prepare_options o : writes_only o (prepare_options (Some o)).
Proof.
  intros w t w' r H. by apply prepare_options_given in H as (_ & _ & Hframe & _).
Qed.

Lemma writes_only_vaccinate ver n : ∀ o func context,
  writes_only o (vaccinate ver n func (Some o) context).
Proof.
  induction n as [|n IH]; intros o func context; [by intros w t w' r|].
  simpl. unfold vaccinate_body.
  apply writes_only_bind; [apply writes_only_prepare_options|].
  intros o' w t w1 Hprep. apply prepare_options_given in Hprep as (_ & [= ->] & _).
  apply writes_only_bind; [apply writes_only_read|]. intros declaration _ _ _ _.
  apply writes_only_bind; [|intros; apply writes_only_apply].
  unfold map_declaration. destruct declaration; try apply writes_only_no_array_method.
  induction items as [|module items IHitems]; simpl; [apply writes_only_ret|].
  apply writes_only_bind.
  - unfold call_require.
    apply writes_only_bind; [apply writes_only_read|]. intros require _ _ _ _.
    destruct require; try apply writes_only_throw.
    assert (∀ m, writes_only o m → writes_only o (loading module m)) as Hloading.
    { intros m Hm w' t' w'' r'. unfold loading.
      destruct (m w') as [[[ti wi] ri]|] eqn:Hmw; [|done].
      intros [= <- <- <-]. by eapply Hm. }
    apply Hloading. case_decide; [|apply writes_only_apply].
    unfold default_require. destruct module; try apply writes_only_ret.
    apply writes_only_bind; [apply writes_only_load|]. intros dependency _ _ _ _.
    destruct dependency; try apply writes_only_ret.
    apply writes_only_bind; [apply writes_only_read|]. intros d _ _ _ _.
    destruct (is_array d); [apply IH|apply writes_only_ret].
  - intros y _ _ _ _. apply writes_only_bind; [apply IHitems|].
    intros; apply writes_only_ret.
Qed.

Lemma prepare_options_None_eq w :
  prepare_options None w =
    prepare_options (Some (fresh (dom (heap w)))) (set_props (fresh (dom (heap w))) ∅ w).
Proof.
  unfold prepare_options.
  rewrite (bind_Ret alloc_object _ w [] _ _ eq_refl).
  by rewrite (bind_Ret (ret _) _ (set_props _ ∅ w) [] _ _ eq_refl).
Qed.

(** When the host and the functions outside the two files leave the heap
    alone, the only object that a run of [vaccinate] changes, recursion
    included, is its options: the object the caller passed, or the fresh
    one made for a call without options. The target, the modules and
    [vaccinate.defaults] are as they were. *)
Theorem vaccinate_writes_only_options ver n func options context w tr w' r :
  vaccinate ver n func options context w = Some (tr, w', r) →
  ∀ l,
    l ≠ match options with Some o => o | None => fresh (dom (heap w)) end →
    heap w' !! l = heap w !! l.
Proof.
  destruct options as [o|]; [apply writes_only_vaccinate|].
  destruct n as [|n]; [done|]. intros H l Hl.
  change (vaccinate_body ver (vaccinate ver n) func None context w = Some (tr, w', r)) in H.
  unfold vaccinate_body, bind in H. rewrite prepare_options_None_eq in H.
  pose proof (writes_only_vaccinate ver (S n) (fresh (dom (heap w))) func context
                (set_props (fresh (dom (heap w))) ∅ w) tr w' r H l Hl) as Hrun.
  rewrite Hrun. simpl. by rewrite lookup_insert_ne.
Qed.

End Frame.

End Vaccinate.

(** ** A concrete host: the modules of the repository's test suite *)

Module Fixture.

(** ToString on the values of the model; a function prints as its source,
    which is not modelled. *)
Fixpoint show (v : value) : string :=
  match v with
  | VUndef => "undefined"
  | VNull => "null"
  | VBool true => "true"
  | VBool false => "false"
  | VNum n => pretty n
  | VStr s => s
  | VArr items =>
      let item x := match x with VUndef | VNull => "" | _ => show x end in
      String.concat "," (map item items)
  | VObj _ => "[object Object]"
  | VFun _ => "function () { }"
  | VTypeError => "TypeError"
  end.

(** Objects of the test suite. *)
Definition defaults_loc : loc := 3%positive.
Definition logger : loc := 10%positive.
Definition user : loc := 11%positive.
Definition logger_also_here : loc := 12%positive.
Definition lodash : loc := 14%positive.
Definition User : loc := 15%positive.
Definition load_error : loc := 16%positive.
Definition mock_logger : loc := 17%positive.
Definition custom_require : loc := 21%positive.

(** Targets, by their declarations. *)
Definition target_empty : loc := 20%positive.
Definition target_user_logger : loc := 22%positive.
Definition target_relative : loc := 23%positive.
Definition target_logger : loc := 24%positive.
Definition target_undeclared : loc := 25%positive.
Definition target_mock : loc := 26%positive.
Definition target_missing_second : loc := 27%positive.

(** Options objects. *)
Definition opts_empty : loc := 30%positive.
Definition opts_dir : loc := 31%positive.
Definition opts_dirs : loc := 32%positive.
Definition opts_custom : loc := 33%positive.
Definition opts_no_dirs : loc := 34%positive.
Definition opts_last_broken : loc := 35%positive.
Definition opts_all_missing : loc := 36%positive.
Definition opts_dir_broken : loc := 37%positive.
Definition opts_merged : loc := 38%positive.
Definition some_context : loc := 40%positive.

Definition declares (items : list value) : gmap string value :=
  {[ "$vaccinations" := VArr items ]}.

Definition moduleDir (v : value) : gmap string value := {[ "moduleDir" := v ]}.

Definition default_options : gmap string value :=
  {[ "dependenciesProperty" := VStr "$vaccinations"; "require" := VFun require_loc ]}.

(** The program as loaded, the modules, the targets, and the options that
    have no list of base directories. *)
Definition objects : list (loc * gmap string value) := [
  (vaccinate_loc, {[ "defaults" := VObj defaults_loc ]});
  (require_loc, ∅);
  (defaults_loc, default_options);
  (logger, {[ "log" := VFun 13%positive ]});
  (user, declares [VStr "/t/modules/logger"]);
  (logger_also_here, {[ "log" := VFun 13%positive ]});
  (lodash, ∅);
  (User, ∅);
  (load_error, ∅);
  (mock_logger, ∅);
  (custom_require, ∅);
  (target_empty, declares []);
  (target_user_logger, declares [VStr "/t/modules/user"; VStr "/t/modules/logger"]);
  (target_relative, declares [VStr "./logger"; VStr "lodash"]);
  (target_logger, declares [VStr "./logger"]);
  (target_undeclared, ∅);
  (target_mock, declares [VStr "logger"]);
  (target_missing_second, declares [VStr "./logger"; VStr "./missing"; VStr "lodash"]);
  (opts_empty, ∅);
  (opts_dir, moduleDir (VStr "/t/modules"));
  (opts_custom, {[ "require" := VFun custom_require ]});
  (opts_dir_broken, moduleDir (VStr "/t/broken"));
  (opts_merged, default_options);
  (some_context, ∅)
].

(** The options with a list of base directories. *)
Definition objects_with_dirs : list (loc * gmap string value) := [
  (opts_dirs, moduleDir (VArr [VStr "/t/modules/not-here"; VStr "/t/modules/also-here";
                               VStr "/t/modules"]));
  (opts_no_dirs, moduleDir (VArr []));
  (opts_last_broken, moduleDir (VArr [VStr "/t/modules/not-here"; VStr "/t/broken"]));
  (opts_all_missing, moduleDir (VArr [VStr "/t/nowhere"; VStr "/t/modules/not-here"]))
].

Definition w0 : world (E := unit) := World (list_to_map (objects_with_dirs ++ objects)) tt.

(** Without any list of base directories. *)
Definition w_simple : world (E := unit) := World (list_to_map objects) tt.

(** After [vaccinate.defaults.moduleDir = [...]], as the README does. *)
Definition w_default_dirs : world (E := unit) :=
  set_props defaults_loc
    (<["moduleDir" := VArr [VStr "/t/modules/not-here"; VStr "/t/modules"]]> default_options)
    w_simple.

Definition not_found (path : string) : value := VStr ("Cannot find module " +:+ path).

(** The host's [require]: the modules that exist, a module under
    [/t/broken] whose code throws [broken] when it is loaded, and the
    error for a module that is not found. *)
Definition host_require_with (broken : value) (path : string) (w : world (E := unit))
    : world * res value :=
  (w,
   if String.eqb path "/t/modules/logger" then Ret (VObj logger)
   else if String.eqb path "/t/modules/user" then Ret (VFun user)
   else if String.eqb path "/t/modules/./logger" then Ret (VObj logger)
   else if String.eqb path "/t/modules/also-here/./logger" then Ret (VObj logger_also_here)
   else if String.eqb path "lodash" then Ret (VObj lodash)
   else if String.eqb path "/t/broken/./logger" then Throw broken
   else Throw (not_found path)).

(** The broken module is [throw null;]. *)
Definition host_require := host_require_with VNull.

(** The functions of the test suite: the factory of [modules/user.js]
    returns the class, the overriding loader of the test knows one name,
    and a target returns nothing. *)
Definition call (f : loc) (this : value) (args : list value) (w : world (E := unit))
    : world * res value :=
  (w,
   if decide (f = user) then Ret (VFun User)
   else if decide (f = custom_require) then
     match args with
     | VStr "logger" :: _ => Ret (VObj mock_logger)
     | _ => Throw (VStr "Module not found")
     end
   else Ret VUndef).

(** The world after lines 19-20 of a call with the options object [o]. *)
Definition prepared (o : loc) (w : world (E := unit)) : world :=
  set_props o (merge defaults_prop (props_of o w) (props_of defaults_loc w)) w.

(** The object that lines 19-20 make for a call without options, and the
    world after them. *)
Definition fresh_options : loc := 41%positive.

Definition prepared_fresh (w : world (E := unit)) : world :=
  set_props fresh_options default_options w.

(** The events of loading [modules/logger] and [modules/user] by their
    full paths with the default loader. *)
Definition load_logger : event :=
  EvLoad (VStr "/t/modules/logger")
    [EvRequire "/t/modules/logger" (Ret (VObj logger))] (Ret (VObj logger)).

Definition load_user : event :=
  EvLoad (VStr "/t/modules/user")
    [EvRequire "/t/modules/user" (Ret (VFun user));
     load_logger;
     EvApply user VNull [VObj logger] (Ret (VFun User))]
    (Ret (VFun User)).

(** The events of loading [./logger] under [/t/modules]. *)
Definition load_relative_logger : event :=
  EvLoad (VStr "./logger")
    [EvRequire "/t/modules/./logger" (Ret (VObj logger))] (Ret (VObj logger)).

Definition load_lodash : event :=
  EvLoad (VStr "lodash") [EvRequire "lodash" (Ret (VObj lodash))] (Ret (VObj lodash)).

(** The events and the outcome of a run. *)
Definition observed (r : option (list event * world (E := unit) * res value))
    : option (list event * res value) :=
  (λ x, (x.1.1, x.2)) <$> r.

Definition run (ver : version) (func : loc) (options : option loc) (context : value)
    (w : world (E := unit)) :=
  vaccinate host_require call show ver 5 func options context w.

(** The host and the functions of the test suite leave the heap alone,
    and the host throws a truthy value when the broken module does. *)
Lemma host_require_with_truthy broken path w e :
  truthy broken = true →
  (host_require_with broken path w).2 = Throw e → truthy e = true.
Proof.
  intros Hbroken. unfold host_require_with. simpl.
  repeat case_match; intros [= <-]; done.
Qed.

Lemma w_simple_moduleDirs : moduleDirs_simple w_simple.
Proof. apply moduleDirs_simple_heap. apply (bool_decide_unpack _). by vm_compute. Qed.

(** The tests of [src/test/index.js] on the model. *)

(** 'supports recursive vaccinations'. *)
Example test_recursive_vaccinations :
  observed (run LibIndex target_user_logger None VUndef w0)
  = Some ([load_user; load_logger;
           EvApply target_user_logger VNull [VFun User; VObj logger] (Ret VUndef)],
          Ret VUndef).
Proof. vm_compute. reflexivity. Qed.

(** 'resolves relative paths to the moduleDir option'. *)
Example test_relative_paths :
  observed (run LibIndex target_relative (Some opts_dir) VUndef w0)
  = Some ([load_relative_logger; load_lodash;
           EvApply target_relative VNull [VObj logger; VObj lodash] (Ret VUndef)],
          Ret VUndef).
Proof. vm_compute. reflexivity. Qed.

(** 'uses the first moduleDir value that works'. *)
Example test_first_moduleDir_that_works :
  observed (run Part000 target_logger (Some opts_dirs) VUndef w0)
  = Some ([EvLoad (VStr "./logger")
             [EvRequire "/t/modules/not-here/./logger"
                (Throw (not_found "/t/modules/not-here/./logger"));
              EvRequire "/t/modules/also-here/./logger" (Ret (VObj logger_also_here))]
             (Ret (VObj logger_also_here));
           EvApply target_logger VNull [VObj logger_also_here] (Ret VUndef)],
          Ret VUndef).
Proof. vm_compute. reflexivity. Qed.

(** 'allows the require function to be overridden'. *)
Example test_require_overridden :
  observed (run LibIndex target_mock (Some opts_custom) VUndef w0)
  = Some ([EvLoad (VStr "logger")
             [EvApply custom_require (VObj opts_custom) [VStr "logger"; VObj opts_custom]
                (Ret (VObj mock_logger))]
             (Ret (VObj mock_logger));
           EvApply target_mock VNull [VObj mock_logger] (Ret VUndef)],
          Ret VUndef).
Proof. vm_compute. reflexivity. Qed.

(** When no base directory has the module, the error of the last one is
    thrown. *)
Example test_all_missing :
  observed (run Part000 target_logger (Some opts_all_missing) VUndef w0)
  = Some ([EvLoad (VStr "./logger")
             [EvRequire "/t/nowhere/./logger" (Throw (not_found "/t/nowhere/./logger"));
              EvRequire "/t/modules/not-here/./logger"
                (Throw (not_found "/t/modules/not-here/./logger"))]
             (Throw (not_found "/t/modules/not-here/./logger"))],
          Throw (not_found "/t/modules/not-here/./logger")).
Proof. vm_compute. reflexivity. Qed.

End Fixture.

(** ** The claims at the test suite *)



Lemma default_require_vaccinates_declaring_function_witness :
  default_require Fixture.host_require Fixture.show LibIndex
    (vaccinate Fixture.host_require Fixture.call Fixture.show LibIndex 2)
    (VStr "/t/modules/user") Fixture.opts_merged Fixture.w0
  = Some ([EvRequire "/t/modules/user" (Ret (VFun Fixture.user))] ++
          [Fixture.load_logger;
           EvApply Fixture.user VNull [VObj Fixture.logger] (Ret (VFun Fixture.User))],
          Fixture.w0, Ret (VFun Fixture.User)).
Proof.
  apply (default_require_vaccinates_declaring_function
           Fixture.host_require Fixture.call Fixture.show LibIndex 2
           "/t/modules/user" Fixture.opts_merged Fixture.w0 _ Fixture.w0 Fixture.user);
    vm_compute; reflexivity.
Defined.

Lemma load_part000_first_success_witness :
  ∃ tr,
    load Fixture.host_require Fixture.show Part000 "./logger" Fixture.opts_dirs Fixture.w0
    = Some (tr, Fixture.w0, Ret (VObj Fixture.logger_also_here)) ∧
    requires tr = ["/t/modules/not-here/./logger"; "/t/modules/also-here/./logger"].
Proof.
  apply (load_part000_first_success Fixture.host_require Fixture.show
           "./logger" Fixture.opts_dirs Fixture.w0
           [VStr "/t/modules/not-here"] (VStr "/t/modules/also-here") [VStr "/t/modules"]
           [EvRequire (candidate Fixture.show "./logger" (VStr "/t/modules/not-here"))
              (Throw (Fixture.not_found "/t/modules/not-here/./logger"))]
           Fixture.w0).
  - vm_compute; reflexivity.
  - vm_compute; reflexivity.
  - apply fail_all_cons with (w1 := Fixture.w0); [vm_compute; reflexivity|apply fail_all_nil].
  - vm_compute; reflexivity.
Defined.

Lemma default_require_empty_moduleDir_witness :
  load Fixture.host_require Fixture.show Part000 "./logger" Fixture.opts_no_dirs Fixture.w0
  = Some ([], Fixture.w0, Ret VUndef) ∧
  default_require Fixture.host_require Fixture.show Part000
    (vaccinate Fixture.host_require Fixture.call Fixture.show Part000 3)
    (VStr "./logger") Fixture.opts_no_dirs Fixture.w0
  = Some ([], Fixture.w0, Ret VUndef).
Proof.
  apply default_require_empty_moduleDir; vm_compute; reflexivity.
Defined.


Lemma vaccinate_missing_declaration_witness :
  vaccinate Fixture.host_require Fixture.call Fixture.show LibIndex 1
    Fixture.target_undeclared None VUndef Fixture.w0
  = Some ([], Fixture.prepared_fresh Fixture.w0, Throw VTypeError).
Proof.
  apply (vaccinate_missing_declaration Fixture.host_require Fixture.call Fixture.show
           LibIndex 0 Fixture.target_undeclared None VUndef Fixture.w0
           (Fixture.prepared_fresh Fixture.w0) Fixture.fresh_options);
    vm_compute; reflexivity.
Defined.

(** C3 fails on [src/unnamed/part_000]. With the base directories
    [/t/modules/not-here], where the module is not found, and [/t/broken],
    where the module's code is [throw null;], every candidate fails, the
    last one with [null]. The loader throws nothing: it returns
    [undefined], and the target is applied to it. *)
Theorem part000_swallows_null_failure :
  Fixture.observed
    (Fixture.run Part000 Fixture.target_logger (Some Fixture.opts_last_broken) VUndef
       Fixture.w0)
  = Some ([EvLoad (VStr "./logger")
             [EvRequire "/t/modules/not-here/./logger"
                (Throw (Fixture.not_found "/t/modules/not-here/./logger"));
              EvRequire "/t/broken/./logger" (Throw VNull)]
             (Ret VUndef);
           EvApply Fixture.target_logger VNull [VUndef] (Ret VUndef)],
          Ret VUndef).
Proof. vm_compute. reflexivity. Qed.

(** C5 as stated fails: after [vaccinate(target, options)] with
    [options = {}], the caller's object has the two default properties. *)
Lemma vaccinate_mutates_options :
  let w' := Fixture.prepared Fixture.opts_empty Fixture.w0 in
  Fixture.run LibIndex Fixture.target_empty (Some Fixture.opts_empty) VUndef Fixture.w0
  = Some ([EvApply Fixture.target_empty VNull [] (Ret VUndef)], w', Ret VUndef) ∧
  props_of Fixture.opts_empty Fixture.w0 = ∅ ∧
  props_of Fixture.opts_empty w' = Fixture.default_options.
Proof. split_and!; vm_compute; reflexivity. Qed.

Lemma prepare_options_fills_missing_witness :
  ∃ w1 o,
    prepare_options (Some Fixture.opts_dir) Fixture.w0 = Some ([], w1, Ret o) ∧
    (∀ o', Some Fixture.opts_dir = Some o' → o = o') ∧
    (Some Fixture.opts_dir = None → heap Fixture.w0 !! o = None) ∧
    (∀ l, l ≠ o → heap w1 !! l = heap Fixture.w0 !! l) ∧
    (∀ key, get_prop o key Fixture.w0 ≠ VUndef →
            get_prop o key w1 = get_prop o key Fixture.w0) ∧
    (∀ key, get_prop o key Fixture.w0 = VUndef →
            get_prop o key w1 = get_prop Fixture.defaults_loc key Fixture.w0).
Proof.
  apply (prepare_options_fills_missing (Some Fixture.opts_dir) Fixture.w0 Fixture.defaults_loc).
  vm_compute; reflexivity.
Defined.

(** C6 as stated fails: in [src/lib/index.js] a context that is given but
    falsy, here [0], is not the receiver; in [src/unnamed/part_000] no
    context is, here an object. The receiver is [null] in both runs. *)
Lemma vaccinate_context_not_receiver :
  Fixture.observed
    (Fixture.run LibIndex Fixture.target_empty None (VNum 0) Fixture.w0)
  = Some ([EvApply Fixture.target_empty VNull [] (Ret VUndef)], Ret VUndef) ∧
  Fixture.observed
    (Fixture.run Part000 Fixture.target_empty None (VObj Fixture.some_context) Fixture.w0)
  = Some ([EvApply Fixture.target_empty VNull [] (Ret VUndef)], Ret VUndef).
Proof. split; vm_compute; reflexivity. Qed.

Lemma vaccinate_receiver_witness :
  ∃ tr w3 r this,
    vaccinate Fixture.host_require Fixture.call Fixture.show LibIndex 5
      Fixture.target_relative (Some Fixture.opts_dir) (VObj Fixture.some_context) Fixture.w0
    = Some (tr, w3, r) ∧
    applications tr
    = [(Fixture.target_relative, this, [VObj Fixture.logger; VObj Fixture.lodash])] ∧
    this = if truthy (VObj Fixture.some_context) then VObj Fixture.some_context else VNull.
Proof.
  apply (vaccinate_receiver Fixture.host_require Fixture.call Fixture.show
           LibIndex 4 Fixture.target_relative (Some Fixture.opts_dir)
           (VObj Fixture.some_context)
           Fixture.w0 (Fixture.prepared Fixture.opts_dir Fixture.w0) Fixture.opts_dir
           [VStr "./logger"; VStr "lodash"]
           [Fixture.load_relative_logger; Fixture.load_lodash]
           (Fixture.prepared Fixture.opts_dir Fixture.w0));
    vm_compute; reflexivity.
Defined.

(** C9 fails on [src/unnamed/part_000]. With one base directory,
    [/t/broken], where the module's code is [throw null;], and no context:
    [src/lib/index.js] throws [null], and the target is not applied;
    [src/unnamed/part_000] throws nothing and applies the target to
    [undefined]. *)
Theorem versions_differ_on_null_failure :
  Fixture.observed
    (Fixture.run LibIndex Fixture.target_logger (Some Fixture.opts_dir_broken) VUndef
       Fixture.w_simple)
  = Some ([EvLoad (VStr "./logger") [EvRequire "/t/broken/./logger" (Throw VNull)]
             (Throw VNull)],
          Throw VNull) ∧
  Fixture.observed
    (Fixture.run Part000 Fixture.target_logger (Some Fixture.opts_dir_broken) VUndef
       Fixture.w_simple)
  = Some ([EvLoad (VStr "./logger") [EvRequire "/t/broken/./logger" (Throw VNull)]
             (Ret VUndef);
           EvApply Fixture.target_logger VNull [VUndef] (Ret VUndef)],
          Ret VUndef).
Proof. split; vm_compute; reflexivity. Qed.

Lemma versions_agree_on_simple_moduleDir_witness :
  vaccinate (Fixture.host_require_with (VObj Fixture.load_error)) Fixture.call Fixture.show
    LibIndex 5 Fixture.target_logger (Some Fixture.opts_dir_broken) VUndef Fixture.w_simple
  = vaccinate (Fixture.host_require_with (VObj Fixture.load_error)) Fixture.call Fixture.show
      Part000 5 Fixture.target_logger (Some Fixture.opts_dir_broken) VUndef Fixture.w_simple.
Proof.
  apply versions_agree_on_simple_moduleDir.
  - intros path w Hw. exact Hw.
  - intros f this args w Hw. exact Hw.
  - intros path w e. apply Fixture.host_require_with_truthy. reflexivity.
  - exact Fixture.w_simple_moduleDirs.
Defined.

(** ** The module of the test suite, [src/test/modules/user.js] *)

Module UserModule.

(** An instance of the class: [formData], and [id] once it is saved. *)
Record User : Type := { formData : value; id : option N }.

(** [++id] on the module's counter. The counter is a double that holds an
    integer: adding one is exact below 2^53, and at 2^53 the sum rounds
    back to 2^53. *)
Definition increment (id : N) : N :=
  if (id <? 2 ^ 53)%N then (id + 1)%N else id.

(** [new User(formData)]: the instance, and what it passes to
    [logger.log]; [stringify] is [JSON.stringify] as the concatenation
    prints it. *)
Definition new_User (stringify : value → string) (formData : value) : User * list string :=
  ({| formData := formData; id := None |},
   ["Created user with formData: " +:+ stringify formData]).

(** [this.save()]: the instance and the counter after [this.id = ++id]. *)
Definition save (this : User) (id : N) : User * N :=
  let id := increment id in
  (Build_User (formData this) (Some id), id).

(** [save] on each instance of a list, in order. *)
Fixpoint save_all (users : list User) (id : N) : list User * N :=
  match users with
  | [] => ([], id)
  | this :: rest =>
      let '(this, id) := save this id in
      let '(rest, id) := save_all rest id in
      (this :: rest, id)
  end.

Lemma save_all_spec users : ∀ c,
  (c + N.of_nat (length users) ≤ 2 ^ 53)%N →
  (save_all users c).2 = (c + N.of_nat (length users))%N ∧
  id <$> (save_all users c).1 = (λ i, Some (c + 1 + N.of_nat i)%N) <$> seq 0 (length users) ∧
  formData <$> (save_all users c).1 = formData <$> users.
Proof.
  induction users as [|u users IH]; intros c Hc; simpl in *.
  { split_and!; [lia|done..]. }
  unfold save, increment.
  destruct (N.ltb_spec c (2 ^ 53)) as [_|?]; [|lia].
  destruct (IH (c + 1)%N) as (Hid & Hids & Hdata); [lia|].
  destruct (save_all users (c + 1)) as [rest id'] eqn:Hrest. simpl in *.
  split_and!; [lia| |by f_equal].
  f_equal; [f_equal; lia|].
  change (id <$> rest = (λ i, Some (c + 1 + N.of_nat i)%N) <$> seq 1 (length users)).
  rewrite Hids, <-fmap_S_seq, <-list_fmap_compose.
  apply list_fmap_ext. intros _ i _. simpl. f_equal. lia.
Qed.

(** As long as the counter stays within 2^53, saving instances one after
    the other gives them the consecutive ids that follow the counter, in
    order: no id is given twice, the counter ends at the last id, and
    [formData] is untouched. *)
Theorem save_all_consecutive_ids users c :
  (c + N.of_nat (length users) ≤ 2 ^ 53)%N →
  (save_all users c).2 = (c + N.of_nat (length users))%N ∧
  id <$> (save_all users c).1 = (λ i, Some (c + 1 + N.of_nat i)%N) <$> seq 0 (length users) ∧
  NoDup (id <$> (save_all users c).1) ∧
  formData <$> (save_all users c).1 = formData <$> users.
Proof.
  intros Hc. destruct (save_all_spec users c Hc) as (Hid & Hids & Hdata).
  split_and!; [done..| |done]. rewrite Hids.
  apply NoDup_fmap_2; [|apply NoDup_seq].
  intros i j [= Hij]. lia.
Qed.

End UserModule.

(** ** More runs at the test suite *)

Module Cases.
Import Fixture.

(** A target that declares values, as the test 'passes modules directly
    through if they are not strings' does. *)
Definition target_values : loc := 50%positive.

Definition w_values : world (E := unit) :=
  set_props target_values (declares [VObj logger; VNum 7; VNull]) w0.

(** Options whose [require] is not a function. *)
Definition opts_no_loader : loc := 51%positive.

Definition w_no_loader : world (E := unit) :=
  set_props opts_no_loader
    {[ "dependenciesProperty" := VStr "$vaccinations"; "require" := VNum 5 ]} w0.

(** Options whose [moduleDir] is [true]. *)
Definition opts_true : loc := 52%positive.

Definition w_true : world (E := unit) :=
  set_props opts_true (moduleDir (VBool true)) w0.

(** A target that declares under [inject], with options that say so, as
    in the test 'allows the dependencies property to be overridden'. *)
Definition target_inject : loc := 53%positive.
Definition opts_inject : loc := 54%positive.

Definition w_inject : world (E := unit) :=
  set_props target_inject {[ "inject" := VArr [VStr "/t/modules/logger"] ]}
    (set_props opts_inject {[ "dependenciesProperty" := VStr "inject" ]} w0).

(** A module that exports a function which declares the module itself. *)
Definition loop : loc := 55%positive.

Definition w_loop : world (E := unit) :=
  set_props loop (declares [VStr "/t/modules/loop"]) w0.

Definition host_require_loop (path : string) (w : world (E := unit)) : world * res value :=
  (w, if String.eqb path "/t/modules/loop" then Ret (VFun loop) else Throw (not_found path)).

End Cases.



Lemma load_moduleDir_not_a_path_witness :
  load Fixture.host_require Fixture.show LibIndex "./logger" Cases.opts_true Cases.w_true
  = host Fixture.host_require
      (candidate Fixture.show "./logger" (get_prop Cases.opts_true "moduleDir" Cases.w_true))
      Cases.w_true ∧
  load Fixture.host_require Fixture.show Part000 "./logger" Cases.opts_true Cases.w_true
  = Some ([], Cases.w_true, Throw VTypeError).
Proof.
  apply (load_moduleDir_not_a_path Fixture.host_require Fixture.show "./logger"
           Cases.opts_true Cases.w_true).
  - vm_compute; reflexivity.
  - vm_compute. exact I.
  - vm_compute; reflexivity.
Defined.

Lemma default_require_keeps_raw_value_witness :
  default_require Fixture.host_require Fixture.show Part000
    (vaccinate Fixture.host_require Fixture.call Fixture.show Part000 0)
    (VStr "/t/modules/logger") Fixture.opts_merged Fixture.w0
  = Some ([EvRequire "/t/modules/logger" (Ret (VObj Fixture.logger))], Fixture.w0,
          Ret (VObj Fixture.logger)).
Proof.
  apply (default_require_keeps_raw_value Fixture.host_require Fixture.show Part000);
    [vm_compute; reflexivity|exact I].
Defined.

Lemma load_part000_throws_last_witness :
  load_part000 Fixture.host_require Fixture.show "./logger" Fixture.opts_all_missing
    Fixture.w0
  = Some ([EvRequire (candidate Fixture.show "./logger" (VStr "/t/nowhere"))
             (Throw (Fixture.not_found "/t/nowhere/./logger"))] ++
          [EvRequire (candidate Fixture.show "./logger" (VStr "/t/modules/not-here"))
             (Throw (Fixture.not_found "/t/modules/not-here/./logger"))],
          Fixture.w0, Throw (Fixture.not_found "/t/modules/not-here/./logger")).
Proof.
  apply (load_part000_throws_last Fixture.host_require Fixture.show "./logger"
           Fixture.opts_all_missing Fixture.w0 [VStr "/t/nowhere"]
           (VStr "/t/modules/not-here") _ Fixture.w0).
  - vm_compute; reflexivity.
  - vm_compute; reflexivity.
  - apply fail_all_cons with (w1 := Fixture.w0); [vm_compute; reflexivity|apply fail_all_nil].
  - vm_compute; reflexivity.
  - vm_compute; reflexivity.
Defined.

Lemma vaccinate_passes_values_through_witness :
  let this := receiver LibIndex (VObj Fixture.some_context) in
  let items := [VObj Fixture.logger; VNum 7; VNull] in
  let w1 := Fixture.prepared Fixture.opts_merged Cases.w_values in
  vaccinate Fixture.host_require Fixture.call Fixture.show LibIndex 1
    Cases.target_values (Some Fixture.opts_merged) (VObj Fixture.some_context) Cases.w_values
  = Some (((λ v, EvLoad v [] (Ret v)) <$> items) ++
            [EvApply Cases.target_values this items
               (Fixture.call Cases.target_values this items w1).2],
          (Fixture.call Cases.target_values this items w1).1,
          (Fixture.call Cases.target_values this items w1).2).
Proof.
  apply (vaccinate_passes_values_through Fixture.host_require Fixture.call Fixture.show
           LibIndex 0 Cases.target_values (Some Fixture.opts_merged)
           (VObj Fixture.some_context) Cases.w_values
           (Fixture.prepared Fixture.opts_merged Cases.w_values) Fixture.opts_merged).
  - vm_compute; reflexivity.
  - vm_compute; reflexivity.
  - repeat constructor.
  - vm_compute; reflexivity.
Defined.

Lemma vaccinate_require_not_a_function_witness :
  vaccinate Fixture.host_require Fixture.call Fixture.show Part000 1
    Fixture.target_logger (Some Cases.opts_no_loader) VUndef Cases.w_no_loader
  = Some ([], Fixture.prepared Cases.opts_no_loader Cases.w_no_loader, Throw VTypeError).
Proof.
  apply (vaccinate_require_not_a_function Fixture.host_require Fixture.call Fixture.show
           Part000 0 Fixture.target_logger (Some Cases.opts_no_loader) VUndef
           Cases.w_no_loader _ Cases.opts_no_loader (VStr "./logger") []);
    vm_compute; reflexivity.
Defined.

Lemma vaccinate_applies_at_most_once_witness :
  let tr := [Fixture.load_relative_logger;
             EvLoad (VStr "./missing")
               [EvRequire "/t/modules/./missing"
                  (Throw (Fixture.not_found "/t/modules/./missing"))]
               (Throw (Fixture.not_found "/t/modules/./missing"))] in
  let r : res value := Throw (Fixture.not_found "/t/modules/./missing") in
  let items := [VStr "./logger"; VStr "./missing"; VStr "lodash"] in
  (∃ e, r = Throw e ∧ applications tr = [] ∧ (loads tr).*1 `prefix_of` items) ∨
  (∃ t args,
     tr = t ++ [EvApply Fixture.target_missing_second (receiver Part000 VUndef) args r] ∧
     loads t = zip items (Ret <$> args) ∧ length args = length items ∧
     applications t = []).
Proof.
  apply (vaccinate_applies_at_most_once Fixture.host_require Fixture.call Fixture.show
           Part000 4 Fixture.target_missing_second (Some Fixture.opts_dir) VUndef
           Fixture.w0 (Fixture.prepared Fixture.opts_dir Fixture.w0) Fixture.opts_dir
           _ _ (Fixture.prepared Fixture.opts_dir Fixture.w0));
    vm_compute; reflexivity.
Defined.

Lemma vaccinate_overridden_require_witness :
  ∃ t tr w' r,
    vaccinate Fixture.host_require Fixture.call Fixture.show LibIndex 1
      Fixture.target_mock (Some Fixture.opts_custom) VUndef Fixture.w0 = Some (tr, w', r) ∧
    Forall (loaded_by Fixture.custom_require Fixture.opts_custom) t ∧
    (tr = t ∨
     ∃ args, tr = t ++ [EvApply Fixture.target_mock (receiver LibIndex VUndef) args r]).
Proof.
  apply (vaccinate_overridden_require Fixture.host_require Fixture.call Fixture.show
           LibIndex Fixture.target_mock (Some Fixture.opts_custom) VUndef Fixture.w0
           (Fixture.prepared Fixture.opts_custom Fixture.w0) Fixture.opts_custom
           [VStr "logger"] Fixture.custom_require).
  - vm_compute; reflexivity.
  - vm_compute; reflexivity.
  - vm_compute; reflexivity.
  - discriminate.
  - intros this args w Hw. exact Hw.
Defined.

Lemma prepare_options_idempotent_witness :
  prepare_options (Some Fixture.opts_dir) (Fixture.prepared Fixture.opts_dir Fixture.w0)
  = Some ([], Fixture.prepared Fixture.opts_dir Fixture.w0, Ret Fixture.opts_dir).
Proof.
  apply (prepare_options_idempotent Fixture.opts_dir Fixture.w0).
  vm_compute; reflexivity.
Defined.

Lemma declaration_read_under_effective_property_witness :
  ∃ w1,
    prepare_options (Some Cases.opts_inject) Cases.w_inject
    = Some ([], w1, Ret Cases.opts_inject) ∧
    declaration_of Fixture.show Cases.target_inject Cases.opts_inject w1
    = get_prop Cases.target_inject
        (Fixture.show
           match get_prop Cases.opts_inject "dependenciesProperty" Cases.w_inject with
           | VUndef => get_prop Fixture.defaults_loc "dependenciesProperty" Cases.w_inject
           | v => v
           end)
        Cases.w_inject.
Proof.
  apply (declaration_read_under_effective_property Fixture.show Cases.target_inject
           Cases.opts_inject Cases.w_inject Fixture.defaults_loc).
  - vm_compute; reflexivity.
  - discriminate.
Defined.

Lemma vaccinate_circular_never_returns_witness :
  vaccinate Cases.host_require_loop Fixture.call Fixture.show Part000 9
    Cases.loop (Some Fixture.opts_merged) VUndef Cases.w_loop = None.
Proof.
  apply (vaccinate_circular_never_returns Cases.host_require_loop Fixture.call Fixture.show
           Part000 "/t/modules/loop" Cases.loop Fixture.opts_merged
           (VStr "$vaccinations") []).
  - vm_compute; reflexivity.
  - discriminate.
  - discriminate.
  - intros w. reflexivity.
  - vm_compute; reflexivity.
  - vm_compute; reflexivity.
  - vm_compute; reflexivity.
Defined.

Lemma vaccinate_writes_only_options_witness :
  heap (Fixture.prepared_fresh Fixture.w0) !! Fixture.defaults_loc
  = heap Fixture.w0 !! Fixture.defaults_loc.
Proof.
  apply (vaccinate_writes_only_options Fixture.host_require Fixture.call Fixture.show
           (λ path w, eq_refl) (λ f this args w, eq_refl)
           LibIndex 5 Fixture.target_user_logger None VUndef Fixture.w0
           [Fixture.load_user; Fixture.load_logger;
            EvApply Fixture.target_user_logger VNull [VFun Fixture.User; VObj Fixture.logger]
              (Ret VUndef)]
           (Fixture.prepared_fresh Fixture.w0) (Ret VUndef)).
  - vm_compute; reflexivity.
  - vm_compute. discriminate.
Defined.

Lemma save_all_consecutive_ids_witness :
  let users :=
    [(UserModule.new_User Fixture.show VNull).1;
     (UserModule.new_User Fixture.show (VStr "form")).1;
     (UserModule.new_User Fixture.show (VNum 3)).1] in
  (UserModule.save_all users 7).2 = (7 + N.of_nat (length users))%N ∧
  UserModule.id <$> (UserModule.save_all users 7).1
  = (λ i, Some (7 + 1 + N.of_nat i)%N) <$> seq 0 (length users) ∧
  NoDup (UserModule.id <$> (UserModule.save_all users 7).1) ∧
  UserModule.formData <$> (UserModule.save_all users 7).1 = UserModule.formData <$> users.
Proof.
  apply UserModule.save_all_consecutive_ids. vm_compute. discriminate.
Defined.

(** A target whose declaration is one name instead of an array of names. *)
Definition target_declares_string : loc := 56%positive.

Definition w_declares_string : world (E := unit) :=
  set_props target_declares_string {[ "$vaccinations" := VStr "./logger" ]} Fixture.w0.

Lemma vaccinate_declaration_not_array_witness :
  vaccinate Fixture.host_require Fixture.call Fixture.show LibIndex 1
    target_declares_string (Some Fixture.opts_merged) VUndef w_declares_string
  = Some ([], Fixture.prepared Fixture.opts_merged w_declares_string, Throw VTypeError).
Proof.
  apply (vaccinate_declaration_not_array Fixture.host_require Fixture.call Fixture.show
           LibIndex 0 target_declares_string (Some Fixture.opts_merged) VUndef
           w_declares_string _ Fixture.opts_merged).
  - vm_compute; reflexivity.
  - vm_compute; reflexivity.
  - vm_compute. exact I.
Defined.

(** ** A module that declares dependencies, found under a base directory *)

Module Relative.
Import Fixture.

(** The host of the test suite, where [user.js] is also found by its
    relative name under [/t/modules]. *)
Definition host_require (path : string) (w : world (E := unit)) : world * res value :=
  if String.eqb path "/t/modules/./user" then (w, Ret (VFun user))
  else Fixture.host_require path w.

(** Merged options with a list of base directories, and a target that
    declares [./user]. *)
Definition opts : loc := 57%positive.
Definition target : loc := 58%positive.

Definition w : world (E := unit) :=
  set_props target (declares [VStr "./user"])
    (set_props opts
       (<["moduleDir" := VArr [VStr "/t/modules/not-here"; VStr "/t/modules";
                               VStr "/t/modules/also-here"]]> default_options)
       w0).

(** The search for [./user]: not under the first directory, under the
    second. *)
Definition found : list event :=
  [EvRequire (candidate show "./user" (VStr "/t/modules/not-here"))
     (Throw (not_found "/t/modules/not-here/./user"))] ++
  [EvRequire (candidate show "./user" (VStr "/t/modules")) (Ret (VFun user))].

End Relative.

(** C4 as stated fails: [./user] is found under the second base
    directory, where the module is the function [user], which declares the
    logger. The value resolved for the target is not this module but the
    class [User] that [vaccinate] on it returns. *)
Lemma first_success_resolves_vaccinated_module :
  Relative.host_require "/t/modules/./user" Relative.w
  = (Relative.w, Ret (VFun Fixture.user)) ∧
  Fixture.observed
    (vaccinate Relative.host_require Fixture.call Fixture.show Part000 5
       Relative.target (Some Relative.opts) VUndef Relative.w)
  = Some ([EvLoad (VStr "./user")
             [EvRequire "/t/modules/not-here/./user"
                (Throw (Fixture.not_found "/t/modules/not-here/./user"));
              EvRequire "/t/modules/./user" (Ret (VFun Fixture.user));
              Fixture.load_logger;
              EvApply Fixture.user VNull [VObj Fixture.logger] (Ret (VFun Fixture.User))]
             (Ret (VFun Fixture.User));
           EvApply Relative.target VNull [VFun Fixture.User] (Ret VUndef)],
          Ret VUndef) ∧
  VFun Fixture.User ≠ VFun Fixture.user.
Proof. split_and!; [vm_compute; reflexivity..|discriminate]. Qed.

Lemma default_require_first_success_witness :
  requires Relative.found
  = ["/t/modules/not-here/./user"; "/t/modules/./user"] ∧
  default_require Relative.host_require Fixture.show Part000
    (vaccinate Relative.host_require Fixture.call Fixture.show Part000 2)
    (VStr "./user") Relative.opts Relative.w
  = Some (Relative.found ++
          [Fixture.load_logger;
           EvApply Fixture.user VNull [VObj Fixture.logger] (Ret (VFun Fixture.User))],
          Fixture.prepared Relative.opts Relative.w, Ret (VFun Fixture.User)).
Proof.
  destruct (default_require_first_success Relative.host_require Fixture.call Fixture.show
              2 "./user" Relative.opts Relative.w
              [VStr "/t/modules/not-here"] (VStr "/t/modules") [VStr "/t/modules/also-here"]
              [EvRequire (candidate Fixture.show "./user" (VStr "/t/modules/not-here"))
                 (Throw (Fixture.not_found "/t/modules/not-here/./user"))]
              Relative.w Relative.w (VFun Fixture.user))
    as (Hrequires & _ & Hdeclaring).
  - vm_compute; reflexivity.
  - vm_compute; reflexivity.
  - apply fail_all_cons with (w1 := Relative.w); [vm_compute; reflexivity|apply fail_all_nil].
  - vm_compute; reflexivity.
  - split; [exact Hrequires|].
    apply (Hdeclaring Fixture.user
             [Fixture.load_logger;
              EvApply Fixture.user VNull [VObj Fixture.logger] (Ret (VFun Fixture.User))]
             (Fixture.prepared Relative.opts Relative.w) (Ret (VFun Fixture.User))
             eq_refl).
    + vm_compute; reflexivity.
    + vm_compute; reflexivity.
Defined.
